(** * Readiness controller of the Kite Atom package ([lib/ready.js])

    A shallow embedding of the [Ready] object and of the part of its host
    (promises of the state controller, Atom notifications, timers, the metrics
    sink) that its control flow goes through, followed by the properties of
    the dispatch and of the retry / recovery chains. *)

From Stdlib Require Import ZArith NArith Ascii String.
From stdpp Require Import base tactics option list strings pretty.

Set Warnings "-register-all".
Local Open Scope nat_scope.

(** ** JavaScript values *)

(** The values that travel as rejection reasons and as metrics attributes.
    Numbers are restricted to integers. *)
Inductive jsvalue : Type :=
| JUndefined
| JNull
| JBool (b : bool)
| JNum (z : Z)
| JStr (s : string)
| JArr (elems : list jsvalue)
| JObj (fields : list (string * jsvalue)).

Module JSON.

Definition dquote : string := String (ascii_of_nat 34) EmptyString.
Definition backslash : string := String (ascii_of_nat 92) EmptyString.

Definition hex_digit (n : nat) : ascii :=
  if n <? 10 then ascii_of_nat (48 + n) else ascii_of_nat (87 + n).

(** One character of a quoted JSON string (QuoteJSONString). *)
Definition escape_char (c : ascii) : string :=
  let n := nat_of_ascii c in
  if n =? 34 then backslash +:+ dquote
  else if n =? 92 then backslash +:+ backslash
  else if n =? 8 then backslash +:+ "b"
  else if n =? 12 then backslash +:+ "f"
  else if n =? 10 then backslash +:+ "n"
  else if n =? 13 then backslash +:+ "r"
  else if n =? 9 then backslash +:+ "t"
  else if n <? 32 then
    backslash +:+ "u00" +:+
      String (hex_digit (n / 16)) (String (hex_digit (n mod 16)) EmptyString)
  else String c EmptyString.

Fixpoint escape (s : string) : string :=
  match s with
  | EmptyString => EmptyString
  | String c s' => escape_char c +:+ escape s'
  end.

Definition quote (s : string) : string := dquote +:+ escape s +:+ dquote.

Fixpoint join (sep : string) (l : list string) : string :=
  match l with
  | [] => EmptyString
  | [x] => x
  | x :: l' => x +:+ sep +:+ join sep l'
  end.

(** [JSON.stringify(v)]; [None] is the result [undefined]. Inside an array
    an [undefined] element prints as [null], inside an object a property
    whose value is [undefined] is left out. *)
Fixpoint stringify (v : jsvalue) : option string :=
  match v with
  | JUndefined => None
  | JNull => Some "null"
  | JBool true => Some "true"
  | JBool false => Some "false"
  | JNum z => Some (pretty z)
  | JStr s => Some (quote s)
  | JArr elems =>
      let fix items (l : list jsvalue) : list string :=
        match l with
        | [] => []
        | x :: l' => default "null" (stringify x) :: items l'
        end in
      Some ("[" +:+ join "," (items elems) +:+ "]")
  | JObj fields =>
      let fix props (l : list (string * jsvalue)) : list string :=
        match l with
        | [] => []
        | (k, x) :: l' =>
            match stringify x with
            | Some sx => (quote k +:+ ":" +:+ sx) :: props l'
            | None => props l'
            end
        end in
      Some ("{" +:+ join "," (props fields) +:+ "}")
  end.

End JSON.

(** ** [path.dirname] (POSIX) *)

Module path.

Definition is_slash (c : ascii) : bool := nat_of_ascii c =? 47.

(** The backwards scan of [dirname]: [rev_tail] holds the characters at
    the indices [i], [i-1], ..., [1]. The result is the index [end] of the
    separator that ends the directory part, or [None] for [-1]. *)
Fixpoint scan (rev_tail : list ascii) (i : nat) (matchedSlash : bool)
  : option nat :=
  match rev_tail with
  | [] => None
  | c :: cs =>
      if is_slash c then
        if matchedSlash then scan cs (i - 1) true else Some i
      else scan cs (i - 1) false
  end.

Definition dirname (p : string) : string :=
  match list_ascii_of_string p with
  | [] => "."
  | c0 :: tl =>
      let hasRoot := is_slash c0 in
      match scan (rev tl) (String.length p - 1) true with
      | None => if hasRoot then "/" else "."
      | Some e =>
          if hasRoot && (e =? 1) then "//" else String.substring 0 e p
      end
  end.

End path.

(** ** The host: editor, metrics, notifications, promises, timers *)

(** The seven values of [StateController.STATES], in their order. *)
Inductive LifecycleState : Type :=
| UNSUPPORTED | UNINSTALLED | INSTALLED | RUNNING
| REACHABLE | AUTHENTICATED | WHITELISTED.

(** The methods of [Ready] that a callback invokes through [this]. *)
Inductive Op : Type :=
| Ensure
| Install
| Launch
| Authenticate
| Whitelist (dirpath : string).

(** The active pane item as [currentPath] reads it: [editor.buffer.file.path].
    For [buffer] and [file], [None] is an absent ([undefined] or [null])
    property; for the pane item itself, in the state, [None] is the
    [undefined] that [getActivePaneItem] returns when no item is active. *)
Record File := { file_path : string }.
Record Buffer := { file : option File }.
Record PaneItem := { buffer : option Buffer }.

(** One call [metrics.track(name)] or [metrics.track(name, attrs)]. *)
Record MetricEvent := { event : string; attrs : option jsvalue }.

(** The body of an arrow function given as [onDidClick] or to [setTimeout]:
    a sequence of [metrics.track(...)], [notification.dismiss()] on the
    notification bound in the enclosing scope, and [this.op()]. *)
Inductive Stmt : Type :=
| Track (name : string) (a : option jsvalue)
| Dismiss (notification : nat)
| Call (op : Op).

Definition Closure : Type := list Stmt.

Record Button := { text : string; onDidClick : Closure }.

Record Options := {
  description : option string;
  icon : option string;
  dismissable : bool;
  buttons : list Button;
}.

Inductive Severity : Type := Error | Warning.

(** A notification of [atom.notifications]. Every [onDidDismiss] callback of
    the source is a single [metrics.track] call, kept as its event. *)
Record Notification := {
  severity : Severity;
  title : string;
  options : Options;
  dismissed : bool;
  dismissCallbacks : list MetricEvent;
}.

(** The calls made on the state controller. *)
Inductive Request : Type :=
| handleState (curpath : option string)
| installKiteRelease
| runKite
| authenticateUser (email password : string)
| whitelistPath (dirpath : string).

(** The arrow functions given to [then], with the variables they capture. *)
Inductive OnFulfilled : Type :=
| ensure_then (curpath : option string)
| install_then
| launch_then
| authenticate_then
| whitelist_then (dirpath : string).

Inductive OnRejected : Type :=
| ensure_catch
| install_catch
| launch_catch
| authenticate_catch
| whitelist_catch (dirpath : string).

(** A promise returned by the state controller together with the reaction
    registered on it by [then(onFulfilled, onRejected)]. *)
Record Promise := {
  request : Request;
  onFulfilled : OnFulfilled;
  onRejected : option OnRejected;
  settled : bool;
}.

Record Timer := { due : N; callback : Closure }.

Record State := {
  activePaneItem : option PaneItem;
  now : N;
  tracked : list MetricEvent;
  notifications : list Notification;
  promises : list Promise;
  timers : list Timer;
  unhandled : list jsvalue;
}.

Definition init : State :=
  {| activePaneItem := None; now := 0%N; tracked := []; notifications := [];
     promises := []; timers := []; unhandled := [] |}.

(** ** A state monad for the controller's code *)

Definition M (A : Type) : Type := State -> A * State.

#[global] Instance M_ret : MRet M := fun A a st => (a, st).
#[global] Instance M_bind : MBind M :=
  fun A B k m st => let (a, st') := m st in k a st'.

Definition exec {A} (m : M A) (st : State) : State := (m st).2.

Definition get {A} (f : State -> A) : M A := fun st => (f st, st).
Definition modify (f : State -> State) : M unit := fun st => (tt, f st).

Definition set_tracked (f : list MetricEvent -> list MetricEvent) (st : State) : State :=
  {| activePaneItem := activePaneItem st; now := now st;
     tracked := f (tracked st); notifications := notifications st;
     promises := promises st; timers := timers st; unhandled := unhandled st |}.

Definition set_notifications (f : list Notification -> list Notification) (st : State) : State :=
  {| activePaneItem := activePaneItem st; now := now st;
     tracked := tracked st; notifications := f (notifications st);
     promises := promises st; timers := timers st; unhandled := unhandled st |}.

Definition set_promises (f : list Promise -> list Promise) (st : State) : State :=
  {| activePaneItem := activePaneItem st; now := now st;
     tracked := tracked st; notifications := notifications st;
     promises := f (promises st); timers := timers st; unhandled := unhandled st |}.

Definition set_timers (f : list Timer -> list Timer) (st : State) : State :=
  {| activePaneItem := activePaneItem st; now := now st;
     tracked := tracked st; notifications := notifications st;
     promises := promises st; timers := f (timers st); unhandled := unhandled st |}.

Definition set_unhandled (f : list jsvalue -> list jsvalue) (st : State) : State :=
  {| activePaneItem := activePaneItem st; now := now st;
     tracked := tracked st; notifications := notifications st;
     promises := promises st; timers := timers st; unhandled := f (unhandled st) |}.

Definition set_now (t : N) (st : State) : State :=
  {| activePaneItem := activePaneItem st; now := t;
     tracked := tracked st; notifications := notifications st;
     promises := promises st; timers := timers st; unhandled := unhandled st |}.

Definition set_activePaneItem (e : option PaneItem) (st : State) : State :=
  {| activePaneItem := e; now := now st;
     tracked := tracked st; notifications := notifications st;
     promises := promises st; timers := timers st; unhandled := unhandled st |}.

(** *** Host primitives *)

Module metrics.
Definition track (name : string) : M unit :=
  modify (set_tracked (fun l => l ++ [{| event := name; attrs := None |}])).
Definition track_with (name : string) (a : jsvalue) : M unit :=
  modify (set_tracked (fun l => l ++ [{| event := name; attrs := Some a |}])).
End metrics.

Definition dir_attrs (dir : string) : jsvalue := JObj [("dir", JStr dir)].

Module atom.

Definition getActivePaneItem : M (option PaneItem) := get activePaneItem.

(** [atom.notifications.add...]: the options may refer to the handle that
    the call returns, as the button callbacks of the source do through the
    variable [notification]. A notification that is not dismissable counts as
    dismissed from the start. *)
Definition add (sev : Severity) (title : string) (opts : nat -> Options) : M nat :=
  fun st =>
    let h := length (notifications st) in
    (h, set_notifications (fun l => l ++ [{| severity := sev; title := title;
           options := opts h; dismissed := negb (dismissable (opts h));
           dismissCallbacks := [] |}]) st).

Definition addError := add Error.
Definition addWarning := add Warning.

Definition add_callback (cb : MetricEvent) (n : Notification) : Notification :=
  {| severity := severity n; title := title n; options := options n;
     dismissed := dismissed n; dismissCallbacks := dismissCallbacks n ++ [cb] |}.

Definition onDidDismiss (h : nat) (cb : MetricEvent) : M unit :=
  modify (set_notifications (fun l =>
    match l !! h with
    | Some n => <[h := add_callback cb n]> l
    | None => l
    end)).

Definition mark_dismissed (n : Notification) : Notification :=
  {| severity := severity n; title := title n; options := options n;
     dismissed := true; dismissCallbacks := dismissCallbacks n |}.

(** [notification.dismiss()]: only a dismissable notification that is not
    dismissed yet is dismissed, and its callbacks run once. *)
Definition dismiss (h : nat) : M unit :=
  fun st =>
    match notifications st !! h with
    | Some n =>
        if dismissable (options n) && negb (dismissed n) then
          (tt, set_tracked (fun l => l ++ dismissCallbacks n)
                 (set_notifications (fun l => <[h := mark_dismissed n]> l) st))
        else (tt, st)
    | None => (tt, st)
    end.

Definition setTimeout (cb : Closure) (delay : N) : M unit :=
  fun st => (tt, set_timers (fun l => l ++ [{| due := (now st + delay)%N; callback := cb |}]) st).

End atom.

Module StateController.

(** A call on the state controller followed by [.then(f, g)]. *)
Definition call_then (r : Request) (f : OnFulfilled) (g : option OnRejected) : M unit :=
  modify (set_promises (fun l => l ++
    [{| request := r; onFulfilled := f; onRejected := g; settled := false |}])).

End StateController.

(** ** The controller *)

(** The value a promise of the state controller is fulfilled with. *)
Inductive Value : Type :=
| VUndefined
| VState (state : LifecycleState).

Module Ready.

Definition currentPath : M (option string) :=
  editor ← atom.getActivePaneItem;
  match editor with
  | None => mret None
  | Some editor =>
      match buffer editor with
      | None => mret None
      | Some b =>
          match file b with
          | None => mret None
          | Some f => mret (Some (file_path f))
          end
      end
  end.

Definition ensure : M unit :=
  curpath ← currentPath;
  StateController.call_then (handleState curpath)
    (ensure_then curpath) (Some ensure_catch).

Definition warnNotSupported : M unit :=
  metrics.track "not-supported warning shown";;
  n ← atom.addError
    "The Kite autocomplete daemon is not supported on this platform"
    (fun _ => {|
       description := Some "Kite is currently only supported on macOS.";
       icon := Some "circle-slash";
       dismissable := true;
       buttons := [] |});
  atom.onDidDismiss n
    {| event := "not-supported warning dismissed"; attrs := None |}.

Definition warnNotInstalled : M unit :=
  metrics.track "not-installed warning shown";;
  n ← atom.addWarning
    "The Kite autocomplete daemon is not installed"
    (fun notification => {|
       description := Some "In order to provide completions the Kite daemon needs to be installed.";
       icon := Some "circle-slash";
       dismissable := true;
       buttons := [ {|
         text := "Install Kite";
         onDidClick := [
           Track "install button clicked (via not-installed warning)" None;
           Dismiss notification;
           Call Install ] |} ] |});
  atom.onDidDismiss n
    {| event := "not-installed warning dismissed"; attrs := None |}.

Definition install : M unit :=
  metrics.track "download-and-install started";;
  StateController.call_then installKiteRelease
    install_then (Some install_catch).

Definition warnNotRunning : M unit :=
  metrics.track "not-running warning shown";;
  n ← atom.addWarning
    "The Kite autocomplete daemon is not running"
    (fun notification => {|
       description := Some "In order to provide completions the Kite daemon needs to be running.";
       icon := Some "circle-slash";
       dismissable := true;
       buttons := [ {|
         text := "Start Kite";
         onDidClick := [
           Track "start button clicked (via not-running warning)" None;
           Call Launch ] |} ] |});
  atom.onDidDismiss n
    {| event := "not-running warning dismissed"; attrs := None |}.

Definition launch : M unit :=
  metrics.track "launch started";;
  StateController.call_then runKite launch_then (Some launch_catch).

Definition warnNotReachable : M unit :=
  metrics.track "not-reachable warning shown";;
  n ← atom.addError
    "The Kite autocomplete daemon is running but not reachable"
    (fun _ => {|
       description := Some "Try killing Kite from Activity Monitor.";
       icon := None;
       dismissable := true;
       buttons := [] |});
  atom.onDidDismiss n
    {| event := "not-reachable warning dismissed"; attrs := None |}.

Definition warnNotAuthenticated : M unit :=
  metrics.track "not-authenticated warning shown";;
  n ← atom.addWarning
    "You need to log in to the Kite autocomplete daemon"
    (fun notification => {|
       description := Some "In order to provide completions the Kite daemon needs to be authenticated (so that it can access the index of your code stored on the cloud).";
       icon := Some "circle-slash";
       dismissable := true;
       buttons := [ {|
         text := "Login";
         onDidClick := [
           Track "login button clicked (via not-authenticated warning)" None;
           Call Authenticate ] |} ] |});
  atom.onDidDismiss n
    {| event := "not-authenticated warning dismissed"; attrs := None |}.

Definition email : string := "test@kite.com".
Definition password : string := "123123".

Definition authenticate : M unit :=
  metrics.track "authentication started";;
  StateController.call_then (authenticateUser email password)
    authenticate_then (Some authenticate_catch).

Definition warnNotWhitelisted (filepath : string) : M unit :=
  let dir := path.dirname filepath in
  metrics.track_with "not-whitelisted warning shown" (dir_attrs dir);;
  n ← atom.addWarning
    ("Kite completions are not enabled for " +:+ filepath)
    (fun notification => {|
       description := Some "Kite only processes files in enabled directories. If you enable Kite then files in this directory will be synced to the Kite backend, where they will be analyzed and indexed.";
       icon := Some "circle-slash";
       dismissable := true;
       buttons := [ {|
         text := "Enable Kite for " +:+ dir;
         onDidClick := [
           Track "enable button clicked (via not-whitelisted warning)"
             (Some (dir_attrs dir));
           Call (Whitelist dir) ] |} ] |});
  atom.onDidDismiss n
    {| event := "not-whitelisted warning dismissed";
       attrs := Some (dir_attrs dir) |}.

Definition whitelist (dirpath : string) : M unit :=
  metrics.track_with "whitelisting started" (dir_attrs dirpath);;
  StateController.call_then (whitelistPath dirpath)
    (whitelist_then dirpath) (Some (whitelist_catch dirpath)).

(** The delay of the [setTimeout] in [launch], in milliseconds. *)
Definition settling_delay : N := 5000.

(** The first arrow function of each [then]. The [switch] of [ensure] has
    no default: a value that is none of the seven states runs no case. *)
Definition on_fulfilled (f : OnFulfilled) (v : Value) : M unit :=
  match f with
  | ensure_then curpath =>
      match v with
      | VState UNSUPPORTED => warnNotSupported
      | VState UNINSTALLED => warnNotInstalled
      | VState INSTALLED => warnNotRunning
      | VState RUNNING => warnNotReachable
      | VState REACHABLE => warnNotAuthenticated
      | VState AUTHENTICATED =>
          match curpath with
          | Some filepath => warnNotWhitelisted filepath
          | None => mret tt
          end
      | VState WHITELISTED => metrics.track "kite is ready"
      | VUndefined => mret tt
      end
  | install_then =>
      metrics.track "download-and-install succeeded";;
      launch
  | launch_then =>
      atom.setTimeout
        [ Track "launch succeeded" None; Call Ensure ] settling_delay
  | authenticate_then =>
      metrics.track "authentication succeeded";;
      ensure
  | whitelist_then dirpath =>
      metrics.track_with "whitelisting succeeded" (dir_attrs dirpath);;
      ensure
  end.

(** The error notification of a failed remediation, with its one button. *)
Definition error_options (err : jsvalue) (retry : Closure) : Options :=
  {| description := JSON.stringify err;
     icon := None;
     dismissable := true;
     buttons := [ {| text := "Retry"; onDidClick := retry |} ] |}.

(** The second arrow function of each [then]. *)
Definition on_rejected (g : OnRejected) (err : jsvalue) : M unit :=
  match g with
  | ensure_catch => metrics.track_with "handleState failed" err
  | install_catch =>
      metrics.track_with "download-and-install failed" err;;
      n ← atom.addError "Unable to install Kite"
        (fun notification => error_options err [
           Track "retry button clicked (via download-and-install error)" None;
           Dismiss notification;
           Call Install ]);
      atom.onDidDismiss n
        {| event := "download-and-install error dismissed"; attrs := None |}
  | launch_catch =>
      metrics.track_with "launch failed" err;;
      n ← atom.addError "Unable to start Kite autocomplete daemon"
        (fun notification => error_options err [
           Track "retry button clicked (via launch error)" None;
           Call Launch ]);
      atom.onDidDismiss n
        {| event := "launch error dismissed"; attrs := None |}
  | authenticate_catch =>
      metrics.track_with "authentication failed" err;;
      n ← atom.addError "Unable to login"
        (fun notification => error_options err [
           Track "retry button clicked (via authentication error)" None;
           Call Authenticate ]);
      atom.onDidDismiss n
        {| event := "authentication error dismissed"; attrs := None |}
  | whitelist_catch dirpath =>
      metrics.track_with "whitelisting failed" (dir_attrs dirpath);;
      n ← atom.addError ("Unable to enable Kite for " +:+ dirpath)
        (fun notification => error_options err [
           Track "retry clicked (via whitelisting-failed error)"
             (Some (dir_attrs dirpath));
           Call (Whitelist dirpath) ]);
      atom.onDidDismiss n
        {| event := "whitelisting error dismissed"; attrs := None |}
  end.

Definition invoke (op : Op) : M unit :=
  match op with
  | Ensure => ensure
  | Install => install
  | Launch => launch
  | Authenticate => authenticate
  | Whitelist dirpath => whitelist dirpath
  end.

End Ready.

(** ** Running callbacks and events *)

Definition run_stmt (s : Stmt) : M unit :=
  match s with
  | Track name None => metrics.track name
  | Track name (Some a) => metrics.track_with name a
  | Dismiss notification => atom.dismiss notification
  | Call op => Ready.invoke op
  end.

Fixpoint run_closure (c : Closure) : M unit :=
  match c with
  | [] => mret tt
  | s :: c' => run_stmt s;; run_closure c'
  end.

Fixpoint run_closures (cs : list Closure) : M unit :=
  match cs with
  | [] => mret tt
  | c :: cs' => run_closure c;; run_closures cs'
  end.

Definition mark_settled (p : Promise) : Promise :=
  {| request := request p; onFulfilled := onFulfilled p;
     onRejected := onRejected p; settled := true |}.

(** What the environment does: the host calls a method, the state controller
    settles a promise, the user clicks a button or closes a notification,
    time passes, the user focuses another pane item. *)
Inductive Event : Type :=
| Invoke (op : Op)
| Resolve (p : nat) (v : Value)
| Reject (p : nat) (err : jsvalue)
| Click (notification button : nat)
| UserDismiss (notification : nat)
| Advance (dt : N)
| Focus (item : option PaneItem).

(** A promise settles once; its reaction runs with the settlement value. A
    rejection without a rejection callback stays unhandled. *)
Definition resolve (i : nat) (v : Value) : M unit :=
  fun st =>
    match promises st !! i with
    | Some p =>
        if settled p then (tt, st)
        else Ready.on_fulfilled (onFulfilled p) v
               (set_promises (fun l => <[i := mark_settled p]> l) st)
    | None => (tt, st)
    end.

Definition reject (i : nat) (err : jsvalue) : M unit :=
  fun st =>
    match promises st !! i with
    | Some p =>
        if settled p then (tt, st)
        else
          let st' := set_promises (fun l => <[i := mark_settled p]> l) st in
          match onRejected p with
          | Some g => Ready.on_rejected g err st'
          | None => (tt, set_unhandled (fun l => l ++ [err]) st')
          end
    | None => (tt, st)
    end.

(** A button can be clicked while its notification is on screen. *)
Definition click (h b : nat) : M unit :=
  fun st =>
    match notifications st !! h with
    | Some n =>
        if dismissed n then (tt, st)
        else
          match buttons (options n) !! b with
          | Some btn => run_closure (onDidClick btn) st
          | None => (tt, st)
          end
    | None => (tt, st)
    end.

Definition is_due (t : N) (tm : Timer) : bool := (due tm <=? t)%N.

(** Time advances by [dt]; the timers that are due fire in the order in which
    they were set. *)
Definition advance (dt : N) : M unit :=
  fun st =>
    let t := (now st + dt)%N in
    let fired := List.filter (is_due t) (timers st) in
    let rest := List.filter (fun tm => negb (is_due t tm)) (timers st) in
    run_closures (map callback fired) (set_timers (fun _ => rest) (set_now t st)).

Definition step (e : Event) (st : State) : State :=
  match e with
  | Invoke op => exec (Ready.invoke op) st
  | Resolve p v => exec (resolve p v) st
  | Reject p err => exec (reject p err) st
  | Click h b => exec (click h b) st
  | UserDismiss h => exec (atom.dismiss h) st
  | Advance dt => exec (advance dt) st
  | Focus item => set_activePaneItem item st
  end.

Definition run (es : list Event) (st : State) : State :=
  fold_left (fun st e => step e st) es st.

(** The requests made on the state controller so far, oldest first. *)
Definition requests (st : State) : list Request := map request (promises st).

(** ** Vocabulary of the properties *)

(** The methods a callback invokes, in order. *)
Definition calls (c : Closure) : list Op :=
  flat_map (fun s => match s with Call op => [op] | _ => [] end) c.

Definition current_path (st : State) : option string := (Ready.currentPath st).1.

(** The request that a method makes on the state controller. *)
Definition request_of (op : Op) (st : State) : Request :=
  match op with
  | Ensure => handleState (current_path st)
  | Install => installKiteRelease
  | Launch => runKite
  | Authenticate => authenticateUser Ready.email Ready.password
  | Whitelist dirpath => whitelistPath dirpath
  end.

(** The promise, with its reaction, that the one call site of a request
    leaves behind. *)
Definition promise_of (r : Request) : Promise :=
  match r with
  | handleState curpath =>
      {| request := r; onFulfilled := ensure_then curpath;
         onRejected := Some ensure_catch; settled := false |}
  | installKiteRelease =>
      {| request := r; onFulfilled := install_then;
         onRejected := Some install_catch; settled := false |}
  | runKite =>
      {| request := r; onFulfilled := launch_then;
         onRejected := Some launch_catch; settled := false |}
  | authenticateUser _ _ =>
      {| request := r; onFulfilled := authenticate_then;
         onRejected := Some authenticate_catch; settled := false |}
  | whitelistPath dirpath =>
      {| request := r; onFulfilled := whitelist_then dirpath;
         onRejected := Some (whitelist_catch dirpath); settled := false |}
  end.

(** Promise [i] is the still unsettled promise of request [r]. *)
Definition pending (st : State) (i : nat) (r : Request) : Prop :=
  promises st !! i = Some (promise_of r).

(** The state after [track; add; onDidDismiss], the shape of every
    notification of the source. *)
Definition notified (sev : Severity) (t : string) (opts : nat -> Options)
    (cb : MetricEvent) (st : State) : State :=
  set_notifications (fun l => l ++
    [{| severity := sev; title := t; options := opts (length l);
        dismissed := negb (dismissable (opts (length l)));
        dismissCallbacks := [cb] |}]) st.

(** Between [st] and [st'] exactly the notification [n] was presented. *)
Definition shows (st st' : State) (n : Notification) : Prop :=
  notifications st' = notifications st ++ [n].

Definition non_actionable (sev : Severity) (st st' : State) : Prop :=
  exists n, shows st st' n /\ severity n = sev /\ buttons (options n) = [].

Definition actionable (sev : Severity) (label : string) (op : Op)
    (st st' : State) : Prop :=
  exists n c, shows st st' n /\ severity n = sev
    /\ buttons (options n) = [{| text := label; onDidClick := c |}]
    /\ calls c = [op].

Definition ready_event : MetricEvent :=
  {| event := "kite is ready"; attrs := None |}.

(** The dispatch table of [ensure], as the specification words it. *)
Definition dispatch (s : LifecycleState) (curpath : option string)
    (st st' : State) : Prop :=
  match s with
  | UNSUPPORTED => non_actionable Error st st'
  | UNINSTALLED => actionable Warning "Install Kite" Install st st'
  | INSTALLED => actionable Warning "Start Kite" Launch st st'
  | RUNNING => non_actionable Error st st'
  | REACHABLE => actionable Warning "Login" Authenticate st st'
  | AUTHENTICATED =>
      match curpath with
      | Some p =>
          actionable Warning ("Enable Kite for " +:+ path.dirname p)
            (Whitelist (path.dirname p)) st st'
      | None => notifications st' = notifications st
      end
  | WHITELISTED =>
      notifications st' = notifications st
      /\ tracked st' = tracked st ++ [ready_event]
  end.

Definition editing (p : string) : option PaneItem :=
  Some {| buffer := Some {| file := Some {| file_path := p |} |} |}.

(** The requests made between [st] and [st'], when [st'] extends [st]. *)
Definition new_requests (st st' : State) : list Request :=
  drop (length (requests st)) (requests st').

(** The remediations: every method but [ensure]. *)
Definition is_remediation (op : Op) : bool :=
  match op with Ensure => false | _ => true end.

(** A remediation whose promise [i] is pending succeeds, and the settling
    delay passes. *)
Definition success (i : nat) : list Event :=
  [Resolve i VUndefined; Advance Ready.settling_delay].

(** C2 as the specification states it: once the remediation succeeds, the
    next request on the state controller is a state query. *)
Definition requeries_after_success (st : State) (i : nat) : Prop :=
  exists curpath,
    new_requests st (run (success i) st) = [handleState curpath].

(** C3 as the specification states it, for the query [i] fulfilled with [s]:
    one notification unless [s] is WHITELISTED, and one tracked event. *)
Definition one_notification_one_signal (s : LifecycleState) (st : State)
    (i : nat) : Prop :=
  let st' := step (Resolve i (VState s)) st in
  (s <> WHITELISTED -> exists n, shows st st' n)
  /\ (exists e, tracked st' = tracked st ++ [e]).

(** The delay between the success of a remediation and the call of [ensure]
    that follows it, for the remediations that are followed by one. *)
Definition recheck_delay (op : Op) : option N :=
  match op with
  | Launch => Some Ready.settling_delay
  | Authenticate | Whitelist _ => Some 0%N
  | Ensure | Install => None
  end.

Definition total (dts : list N) : N := fold_right N.add 0%N dts.

(** The newest promise is rejected with [err], and the user clicks the first
    button of the notification that this presents. *)
Definition fail_and_retry (st : State) (err : jsvalue) : State :=
  let st1 := step (Reject (pred (length (promises st))) err) st in
  step (Click (pred (length (notifications st1))) 0) st1.

Definition retries (errs : list jsvalue) (st : State) : State :=
  fold_left fail_and_retry errs st.

(** The timer that a successful [launch] sets in state [st]. *)
Definition launch_timer (st : State) : Timer :=
  {| due := (now st + Ready.settling_delay)%N;
     callback := [Track "launch succeeded" None; Call Ensure] |}.

(** Every promise has a rejection callback and no rejection was left
    unhandled. *)
Definition handled (st : State) : Prop :=
  Forall (fun p => is_Some (onRejected p)) (promises st) /\ unhandled st = [].

Definition preserves {A} (m : M A) : Prop :=
  forall st, handled st -> handled (m st).2.

Definition failed_query (err : jsvalue) : MetricEvent :=
  {| event := "handleState failed"; attrs := Some err |}.

(** *** Concrete runs *)

Definition a_file : string := "/Users/me/proj/a.py".

Definition E1 : jsvalue := JObj [("code", JStr "E1")].

(** [ensure] was called, with and without a file in the active pane. *)
Definition querying : State := run [Focus (editing a_file); Invoke Ensure] init.
Definition querying_no_file : State := step (Invoke Ensure) init.

(** A remediation was called and its promise is pending. *)
Definition installing : State := step (Invoke Install) init.
Definition launching : State := step (Invoke Launch) init.

(** *** Vocabulary of the further properties *)

(** A callback that does not call [notification.dismiss()]. *)
Definition keeps_notification (c : Closure) : bool :=
  forallb (fun s => match s with Dismiss _ => false | _ => true end) c.

(** The user clicks button [b] of notification [h], [k] times in a row. *)
Fixpoint clicks (k : nat) (h b : nat) (st : State) : State :=
  match k with
  | 0 => st
  | S k' => clicks k' h b (step (Click h b) st)
  end.

(** The method behind the one button of the notification that [ensure]
    presents for a state, if it presents one with a button. *)
Definition warning_button (s : LifecycleState) (curpath : option string)
  : option Op :=
  match s with
  | UNINSTALLED => Some Install
  | INSTALLED => Some Launch
  | REACHABLE => Some Authenticate
  | AUTHENTICATED =>
      match curpath with
      | Some p => Some (Whitelist (path.dirname p))
      | None => None
      end
  | UNSUPPORTED | RUNNING | WHITELISTED => None
  end.

(** How many of [k] clicks on the button of a method reach the method: the
    callbacks for [install] dismiss their notification at the first click. *)
Definition served (op : Op) (k : nat) : nat :=
  match op with
  | Install => Nat.min k 1
  | _ => k
  end.

(** The shape of what the controller leaves in the host. A request for
    authentication carries the two literals of [authenticate]. *)
Definition request_wf (r : Request) : Prop :=
  match r with
  | authenticateUser e pw => e = Ready.email /\ pw = Ready.password
  | _ => True
  end.

(** A promise carries the reaction of the call site of its request. *)
Definition promise_wf (p : Promise) : Prop :=
  (p = promise_of (request p) \/ p = mark_settled (promise_of (request p)))
  /\ request_wf (request p).

(** A callback dismisses no notification but the one with handle [h]. *)
Definition self_dismissing (h : nat) (c : Closure) : Prop :=
  Forall (fun s => match s with Dismiss h' => h' = h | _ => True end) c.

(** A button calls exactly one method, a remediation. *)
Definition button_wf (h : nat) (btn : Button) : Prop :=
  (exists op, calls (onDidClick btn) = [op] /\ is_remediation op = true)
  /\ self_dismissing h (onDidClick btn).

Definition options_wf (h : nat) (o : Options) : Prop :=
  dismissable o = true
  /\ length (buttons o) <= 1
  /\ Forall (button_wf h) (buttons o).

Definition notification_wf (h : nat) (n : Notification) : Prop :=
  options_wf h (options n) /\ exists cb, dismissCallbacks n = [cb].

Definition timer_wf (tm : Timer) : Prop :=
  callback tm = [Track "launch succeeded" None; Call Ensure].

Definition wf (st : State) : Prop :=
  Forall promise_wf (promises st)
  /\ (forall h n, notifications st !! h = Some n -> notification_wf h n)
  /\ Forall timer_wf (timers st).

(** A notification is what it was, except that it may have been dismissed
    (and may have got a dismissal callback). *)
Definition same_or_dismissed (n n' : Notification) : Prop :=
  severity n' = severity n /\ title n' = title n /\ options n' = options n
  /\ (dismissed n = true -> dismissed n' = true).

(** [st'] keeps what [st] has: the tracked events and the requests, in
    order; the notifications, dismissed ones still dismissed; the settled
    promises. *)
Definition extends (st st' : State) : Prop :=
  (exists l, tracked st' = tracked st ++ l)
  /\ (exists l, requests st' = requests st ++ l)
  /\ (forall h n, notifications st !! h = Some n ->
        exists n', notifications st' !! h = Some n' /\ same_or_dismissed n n')
  /\ (forall i p, promises st !! i = Some p -> settled p = true ->
        promises st' !! i = Some p).

Definition inflates {A} (m : M A) : Prop :=
  forall st, extends st (m st).2.

(** One check: [ensure] is called and its state query is answered. *)
Definition ensure_round (v : Value) (st : State) : State :=
  step (Resolve (length (promises st)) v) (step (Invoke Ensure) st).

(** Whether [ensure] presents a notification for a state and a path. *)
Definition presents (s : LifecycleState) (curpath : option string) : bool :=
  match s with
  | WHITELISTED => false
  | AUTHENTICATED => bool_decide (is_Some curpath)
  | _ => true
  end.

Definition launch_succeeded : MetricEvent :=
  {| event := "launch succeeded"; attrs := None |}.

(** The newest promise is fulfilled with [v]. *)
Definition answer (v : Value) (st : State) : State :=
  step (Resolve (pred (length (promises st))) v) st.

(** The user clicks the button of the newest notification. *)
Definition press (st : State) : State :=
  step (Click (pred (length (notifications st))) 0) st.

(** From a daemon that is not installed to a ready one, with the file [p] in
    front: every remediation is offered, clicked and succeeds. *)
Definition full_recovery (p : string) (st : State) : State :=
  let s := step (Invoke Ensure) (step (Focus (editing p)) st) in
  let s := press (answer (VState UNINSTALLED) s) in
  let s := answer VUndefined s in
  let s := step (Advance Ready.settling_delay) (answer VUndefined s) in
  let s := press (answer (VState REACHABLE) s) in
  let s := answer VUndefined s in
  let s := press (answer (VState AUTHENTICATED) s) in
  let s := answer VUndefined s in
  answer (VState WHITELISTED) s.

(** What a user or the host does, against what the environment does. *)
Definition user_action (e : Event) : bool :=
  match e with
  | Invoke _ | Click _ _ => true
  | _ => false
  end.

(** The requests that the controller makes without a user action: the state
    query, and [runKite] after an installation. *)
Definition automatic (r : Request) : Prop :=
  match r with
  | handleState _ | runKite => True
  | _ => False
  end.

(** ** Properties *)

Section ListFacts.
Context {A : Type}.
Implicit Types (l : list A) (x y : A).

Lemma lookup_snoc_length l x : (l ++ [x]) !! length l = Some x.
Proof. by apply list_lookup_middle. Qed.

Lemma insert_snoc_length l x y : <[length l := y]> (l ++ [x]) = l ++ [y].
Proof.
  replace (length l) with (length l + 0) by lia.
  by rewrite insert_app_r.
Qed.

Lemma insert_same_image {B} (f : A -> B) l i x y :
  l !! i = Some x -> f y = f x -> map f (<[i := y]> l) = map f l.
Proof.
  revert i. induction l as [|a l IH]; intros [|i] Hl Hf; simpl in *;
    try discriminate.
  - injection Hl as ->. by rewrite Hf.
  - f_equal. eauto.
Qed.
End ListFacts.

(** *** The platform functions on examples *)

Example dirname_file : path.dirname "/Users/me/proj/a.py" = "/Users/me/proj".
Proof. reflexivity. Qed.

Example dirname_trailing : path.dirname "/a/b/" = "/a".
Proof. reflexivity. Qed.

Example dirname_relative : path.dirname "a.py" = ".".
Proof. reflexivity. Qed.

Example dirname_root : path.dirname "/a.py" = "/".
Proof. reflexivity. Qed.

Example stringify_E1 :
  JSON.stringify (JObj [("code", JStr "E1")])
  = Some ("{" +:+ JSON.dquote +:+ "code" +:+ JSON.dquote +:+ ":"
            +:+ JSON.dquote +:+ "E1" +:+ JSON.dquote +:+ "}").
Proof. reflexivity. Qed.

Example stringify_nested :
  JSON.stringify (JArr [JNum (-12); JUndefined; JObj [("a", JUndefined); ("b", JNull)]])
  = Some ("[-12,null,{" +:+ JSON.dquote +:+ "b" +:+ JSON.dquote +:+ ":null}]").
Proof. vm_compute. reflexivity. Qed.

(** *** [dirname] names another path *)

Lemma scan_bounds (l : list ascii) :
  forall (i : nat) (m : bool) (e : nat),
    path.scan l i m = Some e -> length l <= i -> e <= i /\ i < e + length l.
Proof.
  induction l as [|c cs IH]; intros i m e H Hi; cbn in *; [discriminate|].
  destruct (path.is_slash c), m; try (injection H as <-; lia).
  all: apply IH in H; lia.
Qed.

Lemma scan_from_end (l : list ascii) :
  forall (i e : nat), path.scan l i true = Some e -> 2 <= length l.
Proof.
  induction l as [|c cs IH]; intros i e H; cbn in *; [discriminate|].
  destruct (path.is_slash c).
  - apply IH in H. lia.
  - destruct cs; [discriminate | cbn; lia].
Qed.

Lemma substring_length (s : string) :
  forall n, n <= String.length s -> String.length (substring 0 n s) = n.
Proof.
  induction s as [|c s IH]; intros [|n] Hn; cbn in *; try lia.
  rewrite IH; lia.
Qed.

Lemma length_list_ascii (s : string) :
  length (list_ascii_of_string s) = String.length s.
Proof. induction s; cbn; congruence. Qed.

(** The directory part of [p] is [p] itself only for the paths ["/"] and
    ["."], which name directories. *)
Lemma dirname_proper (p : string) :
  p <> "/" -> p <> "." -> path.dirname p <> p.
Proof.
  intros Hroot Hdot. unfold path.dirname.
  destruct p as [|c0 s]; [discriminate|]. cbn [list_ascii_of_string].
  destruct (path.scan _ _ _) as [e|] eqn:Hscan.
  - pose proof (scan_from_end _ _ _ Hscan) as Htwo.
    apply scan_bounds in Hscan;
      rewrite length_rev, length_list_ascii in *;
      cbn [String.length] in *; [|lia].
    destruct (path.is_slash c0 && (e =? 1)).
    + intros E. apply (f_equal String.length) in E. cbn in E. lia.
    + intros E. apply (f_equal String.length) in E.
      rewrite substring_length in E; cbn [String.length] in *; lia.
  - assert (Hs : s <> EmptyString -> String.length (String c0 s) <> 1)
      by (destruct s; cbn; [congruence | lia]).
    destruct (path.is_slash c0) eqn:Hc0; intros E;
      destruct s; try (apply Hs; [discriminate | by rewrite <- E]);
      congruence.
Qed.

(** *** Notifications *)

Lemma add_onDidDismiss sev t opts cb st :
  (n ← atom.add sev t opts; atom.onDidDismiss n cb) st
  = (tt, notified sev t opts cb st).
Proof.
  unfold mbind, M_bind, atom.add, atom.onDidDismiss, modify, notified,
    set_notifications; simpl.
  rewrite lookup_snoc_length, insert_snoc_length. reflexivity.
Qed.

(** *** Frame facts of the methods *)

Lemma current_path_frame (st st' : State) :
  activePaneItem st' = activePaneItem st -> current_path st' = current_path st.
Proof.
  unfold current_path, Ready.currentPath, atom.getActivePaneItem, get,
    mbind, M_bind. simpl. intros ->.
  destruct (activePaneItem st) as [[[[[[?]|]]|]]|]; reflexivity.
Qed.

Lemma ensure_eq (st : State) :
  Ready.ensure st
  = (tt, set_promises (fun l => l ++ [promise_of (handleState (current_path st))]) st).
Proof.
  unfold Ready.ensure, current_path, Ready.currentPath,
    atom.getActivePaneItem, get, mbind, M_bind.
  destruct (activePaneItem st) as [[[[[[?]|]]|]]|]; reflexivity.
Qed.

(** A method tracks its start event, if it has one, and leaves the promise
    of its request behind. *)
Lemma invoke_promises (op : Op) (st : State) :
  promises (exec (Ready.invoke op) st)
  = promises st ++ [promise_of (request_of op st)].
Proof.
  destruct op; unfold exec; simpl; try reflexivity.
  by rewrite ensure_eq.
Qed.

Lemma invoke_pending (op : Op) (st : State) :
  pending (step (Invoke op) st) (length (promises st)) (request_of op st).
Proof.
  unfold pending, step. rewrite invoke_promises. apply lookup_snoc_length.
Qed.

Lemma request_promise_of (r : Request) : request (promise_of r) = r.
Proof. by destruct r. Qed.

(** Settling a promise does not change its request. *)
Lemma requests_settle (st : State) (i : nat) (p q : Promise) :
  promises st !! i = Some p -> request q = request p ->
  map request (<[i := q]> (promises st)) = requests st.
Proof. intros H Hq. by apply (insert_same_image request _ _ p). Qed.

(** *** Settling a pending promise *)

Lemma resolve_pending (st : State) (i : nat) (r : Request) (v : Value) :
  pending st i r ->
  step (Resolve i v) st
  = exec (Ready.on_fulfilled (onFulfilled (promise_of r)) v)
      (set_promises (fun l => <[i := mark_settled (promise_of r)]> l) st).
Proof.
  unfold pending, step, exec, resolve. intros ->. by destruct r.
Qed.

Lemma reject_pending (st : State) (i : nat) (r : Request) (err : jsvalue) :
  pending st i r ->
  exists g, onRejected (promise_of r) = Some g
    /\ step (Reject i err) st
       = exec (Ready.on_rejected g err)
           (set_promises (fun l => <[i := mark_settled (promise_of r)]> l) st).
Proof.
  unfold pending, step, exec, reject. intros ->.
  destruct r; eexists; (split; [reflexivity|]); reflexivity.
Qed.

Lemma track_notify name sev t opts cb st :
  (metrics.track name;; n ← atom.add sev t opts; atom.onDidDismiss n cb) st
  = (tt, notified sev t opts cb
           (set_tracked (fun l => l ++ [{| event := name; attrs := None |}]) st)).
Proof.
  unfold mbind at 1, M_bind at 1. cbn [metrics.track modify].
  apply add_onDidDismiss.
Qed.

Lemma track_with_notify name a sev t opts cb st :
  (metrics.track_with name a;;
   n ← atom.add sev t opts; atom.onDidDismiss n cb) st
  = (tt, notified sev t opts cb
           (set_tracked (fun l => l ++ [{| event := name; attrs := Some a |}]) st)).
Proof.
  unfold mbind at 1, M_bind at 1. cbn [metrics.track_with modify].
  apply add_onDidDismiss.
Qed.

(** Rewrites the presentation of a notification into [notified]. *)
Ltac notify :=
  unfold Ready.warnNotSupported, Ready.warnNotInstalled,
    Ready.warnNotRunning, Ready.warnNotReachable,
    Ready.warnNotAuthenticated, Ready.warnNotWhitelisted,
    atom.addError, atom.addWarning;
  rewrite ?track_notify, ?track_with_notify.

(** Runs the straight-line part of a method or callback. *)
Ltac eval_m :=
  unfold Ready.install, Ready.launch, Ready.authenticate, Ready.whitelist,
    StateController.call_then, metrics.track, metrics.track_with, modify,
    atom.setTimeout, mbind, M_bind, mret, M_ret;
  cbn.

(** C1: when the state query of [ensure] is fulfilled with state [s], the
    controller presents what the dispatch table says for [s]: an error
    without a button for UNSUPPORTED and RUNNING, a warning whose button
    calls [install], [launch] or [authenticate] for UNINSTALLED, INSTALLED
    and REACHABLE, the whitelist warning for AUTHENTICATED exactly when the
    path read by [ensure] is not null, and for WHITELISTED no notification
    and the event "kite is ready". *)
Theorem ensure_dispatch (st : State) (i : nat) (curpath : option string)
    (s : LifecycleState) :
  pending st i (handleState curpath) ->
  dispatch s curpath st (step (Resolve i (VState s)) st).
Proof.
  intros H. rewrite (resolve_pending _ _ _ _ H).
  unfold exec; cbn [promise_of onFulfilled Ready.on_fulfilled].
  destruct s; [ | | | | | destruct curpath as [p|] | ]; cbn [dispatch];
    notify; unfold non_actionable, actionable, shows; cbn; eauto 10.
Qed.

Lemma ensure_dispatch_witness :
  pending querying 0 (handleState (Some a_file))
  /\ dispatch AUTHENTICATED (Some a_file) querying
       (step (Resolve 0 (VState AUTHENTICATED)) querying).
Proof.
  split; [reflexivity|].
  apply (ensure_dispatch querying 0 (Some a_file) AUTHENTICATED). reflexivity.
Defined.

(** C5: when the promise of [install] is fulfilled, [launch] runs in the same
    turn: its start event is tracked and [runKite] is the one request made,
    so no state query comes in between; no timer is set. *)
Theorem install_success_launches (st : State) (i : nat) (v : Value) :
  pending st i installKiteRelease ->
  let st' := step (Resolve i v) st in
  new_requests st st' = [runKite]
  /\ pending st' (length (promises st)) runKite
  /\ tracked st' = tracked st ++
       [ {| event := "download-and-install succeeded"; attrs := None |};
         {| event := "launch started"; attrs := None |} ]
  /\ timers st' = timers st
  /\ notifications st' = notifications st.
Proof.
  intros H st'. subst st'. rewrite (resolve_pending _ _ _ _ H).
  unfold exec, new_requests, requests, pending; cbn. eval_m.
  rewrite map_app. erewrite requests_settle; [ | exact H | reflexivity ].
  rewrite drop_app_length. repeat split; try reflexivity.
  - erewrite <- (length_insert (promises st) i). apply lookup_snoc_length.
  - by rewrite <- app_assoc.
Qed.

Lemma install_success_launches_witness :
  pending installing 0 installKiteRelease
  /\ new_requests installing (step (Resolve 0 VUndefined) installing) = [runKite].
Proof.
  split; [reflexivity|].
  apply (install_success_launches installing 0 VUndefined). reflexivity.
Defined.

(** C9: when the promise of [install] is rejected with [err], an error
    notification is presented whose description is [JSON.stringify(err)] and
    whose one button is "Retry". *)
Theorem install_failure_notification (st : State) (i : nat) (err : jsvalue) :
  pending st i installKiteRelease ->
  exists n c,
    shows st (step (Reject i err) st) n
    /\ severity n = Error
    /\ description (options n) = JSON.stringify err
    /\ buttons (options n) = [{| text := "Retry"; onDidClick := c |}].
Proof.
  intros H. destruct (reject_pending _ _ _ err H) as (g & Hg & ->).
  injection Hg as <-. unfold exec; cbn [Ready.on_rejected]. notify.
  eexists; eexists; repeat split; reflexivity.
Qed.

Lemma install_failure_notification_witness :
  pending installing 0 installKiteRelease
  /\ exists n c,
       shows installing (step (Reject 0 E1) installing) n
       /\ severity n = Error
       /\ description (options n) = JSON.stringify E1
       /\ buttons (options n) = [{| text := "Retry"; onDidClick := c |}].
Proof.
  split; [reflexivity|].
  apply (install_failure_notification installing 0 E1). reflexivity.
Defined.

(** The scenario of the specification, on the code: the description is the
    text [{"code":"E1"}]. *)
Example install_failure_E1 :
  (description ∘ options) <$> notifications (step (Reject 0 E1) installing)
  = [ Some ("{" +:+ JSON.dquote +:+ "code" +:+ JSON.dquote +:+ ":"
              +:+ JSON.dquote +:+ "E1" +:+ JSON.dquote +:+ "}") ].
Proof. reflexivity. Qed.

(** C10: for a query made with the file path [p] and fulfilled with
    AUTHENTICATED, the button of the warning is labelled with [dirname(p)],
    and clicking it makes the one request [whitelistPath(dirname(p))]; and
    [dirname(p)] is not [p], unless [p] is one of the directories ["/"] and
    ["."]. *)
Theorem whitelist_acts_on_dirname (st : State) (i : nat) (p : string) :
  pending st i (handleState (Some p)) ->
  let st' := step (Resolve i (VState AUTHENTICATED)) st in
  (exists n c, shows st st' n
     /\ buttons (options n)
        = [{| text := "Enable Kite for " +:+ path.dirname p; onDidClick := c |}]
     /\ calls c = [Whitelist (path.dirname p)])
  /\ new_requests st' (step (Click (length (notifications st)) 0) st')
     = [whitelistPath (path.dirname p)]
  /\ (p <> "/" -> p <> "." -> path.dirname p <> p).
Proof.
  intros H st'. subst st'. rewrite (resolve_pending _ _ _ _ H).
  unfold exec; cbn [promise_of onFulfilled Ready.on_fulfilled].
  notify. split; [|split].
  - eexists; eexists; repeat split; reflexivity.
  - unfold step, exec, click, new_requests, requests; cbn.
    rewrite lookup_snoc_length; cbn. eval_m.
    rewrite map_app, drop_app_length. reflexivity.
  - apply dirname_proper.
Qed.

Lemma whitelist_acts_on_dirname_witness :
  pending querying 0 (handleState (Some a_file))
  /\ new_requests (step (Resolve 0 (VState AUTHENTICATED)) querying)
       (step (Click 0 0) (step (Resolve 0 (VState AUTHENTICATED)) querying))
     = [whitelistPath "/Users/me/proj"].
Proof.
  split; [reflexivity|].
  apply (whitelist_acts_on_dirname querying 0 a_file). reflexivity.
Defined.

(** C3, as stated, fails: a query made without a file and fulfilled with
    AUTHENTICATED presents nothing and tracks nothing. *)
Lemma authenticated_without_file_is_silent :
  ~ one_notification_one_signal AUTHENTICATED (step (Invoke Ensure) init) 0.
Proof.
  intros [_ [e He]]. vm_compute in He. discriminate He.
Qed.

(** C3, amended: a fulfilled state query presents exactly one notification
    for every state but WHITELISTED and tracks exactly one event, except
    that AUTHENTICATED without a file path presents nothing and tracks
    nothing. *)
Theorem ensure_effects_count (st : State) (i : nat) (curpath : option string)
    (s : LifecycleState) :
  pending st i (handleState curpath) ->
  let st' := step (Resolve i (VState s)) st in
  match s, curpath with
  | AUTHENTICATED, None =>
      notifications st' = notifications st /\ tracked st' = tracked st
  | WHITELISTED, _ =>
      notifications st' = notifications st
      /\ exists e, tracked st' = tracked st ++ [e]
  | _, _ =>
      (exists n, shows st st' n) /\ exists e, tracked st' = tracked st ++ [e]
  end.
Proof.
  intros H st'. subst st'. rewrite (resolve_pending _ _ _ _ H).
  unfold exec, shows; cbn [promise_of onFulfilled Ready.on_fulfilled].
  destruct s; [ | | | | | destruct curpath | destruct curpath ]; notify;
    cbn; eauto.
Qed.

Lemma ensure_effects_count_witness :
  pending querying_no_file 0 (handleState None)
  /\ notifications (step (Resolve 0 (VState AUTHENTICATED)) querying_no_file)
     = notifications querying_no_file
  /\ tracked (step (Resolve 0 (VState AUTHENTICATED)) querying_no_file)
     = tracked querying_no_file.
Proof.
  split; [reflexivity|].
  apply (ensure_effects_count querying_no_file 0 None AUTHENTICATED).
  reflexivity.
Defined.

(** C2, as stated, fails for [install]: after its success the next request
    is [runKite], not a state query. *)
Lemma install_success_skips_query :
  ~ requeries_after_success (step (Invoke Install) init) 0.
Proof.
  intros [curpath H]. vm_compute in H. discriminate H.
Qed.

(** *** Timers *)

Lemma run_cons (e : Event) (es : list Event) (st : State) :
  run (e :: es) st = run es (step e st).
Proof. reflexivity. Qed.

(** Without a timer, the passing of time only moves the clock. *)
Lemma advance_idle (st : State) (dt : N) :
  timers st = [] ->
  let st' := step (Advance dt) st in
  promises st' = promises st /\ timers st' = []
  /\ activePaneItem st' = activePaneItem st.
Proof.
  intros H. unfold step, exec, advance. rewrite H. cbn. auto.
Qed.

Lemma advances_idle (dts : list N) (st : State) :
  timers st = [] -> requests (run (map Advance dts) st) = requests st.
Proof.
  revert st. induction dts as [|dt dts IH]; intros st H; [reflexivity|].
  cbn [map]. rewrite run_cons.
  destruct (advance_idle st dt H) as (Hp & Ht & _).
  rewrite (IH _ Ht). unfold requests. by rewrite Hp.
Qed.

(** The timer of [launch], alone: before it is due only the clock moves;
    once it is due it fires, [ensure] makes its query, and no timer is
    left. *)
Lemma advance_launch_timer (st st0 : State) (dt : N) :
  timers st = [launch_timer st0] ->
  let st' := step (Advance dt) st in
  activePaneItem st' = activePaneItem st
  /\ now st' = (now st + dt)%N
  /\ if (due (launch_timer st0) <=? now st + dt)%N
     then timers st' = []
          /\ requests st' = requests st ++ [handleState (current_path st)]
     else timers st' = timers st /\ requests st' = requests st.
Proof.
  intros H. unfold step, exec, advance. rewrite H.
  cbn [List.filter]. unfold is_due.
  destruct (due (launch_timer st0) <=? now st + dt)%N; cbn.
  - eval_m. rewrite ensure_eq. cbn. unfold requests.
    rewrite map_app. cbn.
    rewrite (current_path_frame st _) by reflexivity. auto.
  - auto.
Qed.

Lemma advances_launch_timer (dts : list N) (st st0 : State) :
  timers st = [launch_timer st0] ->
  (now st < due (launch_timer st0))%N ->
  let st' := run (map Advance dts) st in
  ((now st + total dts < due (launch_timer st0))%N ->
     requests st' = requests st)
  /\ ((due (launch_timer st0) <= now st + total dts)%N ->
     requests st' = requests st ++ [handleState (current_path st)]).
Proof.
  revert st. induction dts as [|dt dts IH]; intros st Ht Hnow; cbn [map].
  - unfold total; cbn [fold_right]. split; [reflexivity | lia].
  - change (total (dt :: dts)) with (dt + total dts)%N. rewrite run_cons.
    destruct (advance_launch_timer st st0 dt Ht) as (Ha & Hn & Hd).
    destruct (N.leb_spec (due (launch_timer st0)) (now st + dt)) as [Hle|Hlt].
    + destruct Hd as [Ht' Hr]. rewrite (advances_idle _ _ Ht'), Hr.
      split; [lia | reflexivity].
    + destruct Hd as [Ht' Hr]. rewrite Ht in Ht'.
      specialize (IH _ Ht'). rewrite Hn in IH. specialize (IH Hlt).
      cbv zeta in IH.
      rewrite Hr, (current_path_frame _ _ Ha) in IH.
      destruct IH as [IH1 IH2]. split; intros Hc.
      * apply IH1. lia.
      * apply IH2. lia.
Qed.

(** What the success of [launch] does in one turn: it sets its timer. *)
Lemma launch_success_sets_timer (st : State) (i : nat) (v : Value) :
  pending st i runKite ->
  let st' := step (Resolve i v) st in
  timers st' = timers st ++ [launch_timer st]
  /\ requests st' = requests st
  /\ now st' = now st /\ activePaneItem st' = activePaneItem st.
Proof.
  intros H st'. subst st'. rewrite (resolve_pending _ _ _ _ H).
  unfold exec; cbn. unfold requests.
  erewrite requests_settle; [ | exact H | reflexivity ]. auto.
Qed.

(** What the success of [authenticate] or [whitelist] does in one turn: it
    calls [ensure], which makes its query. *)
Lemma direct_success_queries (st : State) (i : nat) (op : Op) (v : Value) :
  recheck_delay op = Some 0%N ->
  pending st i (request_of op st) ->
  let st' := step (Resolve i v) st in
  timers st' = timers st
  /\ requests st' = requests st ++ [handleState (current_path st)].
Proof.
  intros Hd H st'. subst st'. rewrite (resolve_pending _ _ _ _ H).
  destruct op; try discriminate Hd; unfold exec; cbn; eval_m;
    rewrite ensure_eq; cbn; unfold requests; rewrite map_app;
    (erewrite requests_settle; [ | exact H | reflexivity ]); cbn;
    rewrite (current_path_frame st _) by reflexivity; auto.
Qed.

(** C6: after the success of [launch], [ensure] has not made its query as
    long as less than the settling delay has passed, and has made it once
    the delay has passed; after the success of [authenticate] or
    [whitelist] the delay is zero: the query is made in the same turn. *)
Theorem recheck_after_delay (st : State) (i : nat) (op : Op) (d : N)
    (v : Value) (dts : list N) :
  recheck_delay op = Some d ->
  pending st i (request_of op st) ->
  timers st = [] ->
  let st' := run (Resolve i v :: map Advance dts) st in
  ((total dts < d)%N -> requests st' = requests st)
  /\ ((d <= total dts)%N ->
        requests st' = requests st ++ [handleState (current_path st)]).
Proof.
  intros Hd H Ht st'. subst st'. rewrite run_cons.
  destruct op; try discriminate Hd.
  - (* launch *)
    injection Hd as <-.
    destruct (launch_success_sets_timer st i v H) as (Ht' & Hr & Hn & Ha).
    rewrite Ht in Ht'. cbn [app] in Ht'.
    pose proof (advances_launch_timer dts _ st Ht') as Hadv.
    cbn [launch_timer due] in Hadv. rewrite Hn in Hadv.
    assert (Hpos : (now st < now st + Ready.settling_delay)%N)
      by (unfold Ready.settling_delay; lia).
    specialize (Hadv Hpos). cbv zeta in Hadv.
    rewrite Hr, (current_path_frame _ _ Ha) in Hadv.
    destruct Hadv as [H1 H2]. split; intros Hc; [apply H1 | apply H2]; lia.
  - (* authenticate *)
    injection Hd as <-.
    destruct (direct_success_queries st i Authenticate v eq_refl H) as [Ht' Hr].
    rewrite advances_idle by congruence. split; [lia | by rewrite Hr].
  - (* whitelist *)
    injection Hd as <-.
    destruct (direct_success_queries st i (Whitelist dirpath) v eq_refl H)
      as [Ht' Hr].
    rewrite advances_idle by congruence. split; [lia | by rewrite Hr].
Qed.

Lemma recheck_after_delay_witness :
  recheck_delay Launch = Some Ready.settling_delay
  /\ pending launching 0 (request_of Launch launching)
  /\ timers launching = []
  /\ (total [2000; 2999] < Ready.settling_delay)%N
  /\ requests (run (Resolve 0 VUndefined :: map Advance [2000; 2999]%N) launching)
     = requests launching.
Proof.
  split; [reflexivity|]. split; [reflexivity|]. split; [reflexivity|].
  split; [reflexivity|].
  apply (recheck_after_delay launching 0 Launch Ready.settling_delay
           VUndefined [2000; 2999]%N); reflexivity.
Defined.

Lemma new_requests_snoc (st st' : State) (rs : list Request) :
  requests st' = requests st ++ rs -> new_requests st st' = rs.
Proof. unfold new_requests. intros ->. apply drop_app_length. Qed.

(** What the success of [install] does in one turn: it calls [launch]. *)
Lemma install_success_requests (st : State) (i : nat) (v : Value) :
  pending st i installKiteRelease ->
  let st' := step (Resolve i v) st in
  timers st' = timers st /\ requests st' = requests st ++ [runKite].
Proof.
  intros H st'. subst st'. rewrite (resolve_pending _ _ _ _ H).
  unfold exec; cbn; eval_m. unfold requests. rewrite map_app.
  erewrite requests_settle; [ | exact H | reflexivity ]. auto.
Qed.

(** C2, amended: after the success of [launch] (once the settling delay has
    passed), of [authenticate] and of [whitelist], the next request is a
    state query; after the success of [install] the next request is
    [runKite], without a state query. *)
Theorem success_is_followed_by (st : State) (i : nat) (op : Op) :
  is_remediation op = true ->
  pending st i (request_of op st) ->
  timers st = [] ->
  new_requests st (run (success i) st)
  = match op with
    | Install => [runKite]
    | _ => [handleState (current_path st)]
    end.
Proof.
  intros Hop H Ht. unfold success. rewrite run_cons.
  apply new_requests_snoc.
  change (run [Advance Ready.settling_delay] ?s)
    with (step (Advance Ready.settling_delay) s).
  destruct op; try discriminate Hop.
  - destruct (install_success_requests st i VUndefined H) as [Ht' Hr].
    rewrite Ht in Ht'.
    destruct (advance_idle _ Ready.settling_delay Ht') as (Hp & _).
    unfold requests in *. by rewrite Hp.
  - destruct (launch_success_sets_timer st i VUndefined H)
      as (Ht' & Hr & Hn & Ha).
    rewrite Ht in Ht'. cbn [app] in Ht'.
    destruct (advance_launch_timer _ st Ready.settling_delay Ht')
      as (_ & _ & Hd).
    cbn [launch_timer due] in Hd. rewrite Hn, N.leb_refl in Hd.
    destruct Hd as [_ Hq]. by rewrite Hq, Hr, (current_path_frame _ _ Ha).
  - destruct (direct_success_queries st i Authenticate VUndefined eq_refl H)
      as [Ht' Hr].
    rewrite Ht in Ht'.
    destruct (advance_idle _ Ready.settling_delay Ht') as (Hp & _).
    unfold requests in *. by rewrite Hp.
  - destruct (direct_success_queries st i (Whitelist dirpath) VUndefined
                eq_refl H) as [Ht' Hr].
    rewrite Ht in Ht'.
    destruct (advance_idle _ Ready.settling_delay Ht') as (Hp & _).
    unfold requests in *. by rewrite Hp.
Qed.

Lemma success_is_followed_by_witness :
  is_remediation Launch = true
  /\ pending launching 0 (request_of Launch launching)
  /\ timers launching = []
  /\ new_requests launching (run (success 0) launching) = [handleState None].
Proof.
  split; [reflexivity|]. split; [reflexivity|]. split; [reflexivity|].
  apply (success_is_followed_by launching 0 Launch); reflexivity.
Defined.

(** *** Failure and retry *)

Lemma pred_length_snoc {A} (l : list A) (x : A) :
  pred (length (l ++ [x])) = length l.
Proof. rewrite length_app. cbn. lia. Qed.

(** The newest promise, of a remediation, is rejected and "Retry" is
    clicked: the promise is settled and a new promise of the same request,
    with the same reaction, is the newest one. *)
Lemma fail_and_retry_promises (op : Op) (st : State) (ps : list Promise)
    (err : jsvalue) :
  is_remediation op = true ->
  promises st = ps ++ [promise_of (request_of op st)] ->
  promises (fail_and_retry st err)
  = (ps ++ [mark_settled (promise_of (request_of op st))])
      ++ [promise_of (request_of op st)].
Proof.
  intros Hop Hps. unfold fail_and_retry.
  assert (H : pending st (pred (length (promises st))) (request_of op st)).
  { unfold pending. rewrite Hps, pred_length_snoc. apply lookup_snoc_length. }
  destruct (reject_pending _ _ _ err H) as (g & Hg & ->).
  rewrite Hps, pred_length_snoc.
  destruct op; try discriminate Hop; injection Hg as <-;
    unfold exec; cbn [Ready.on_rejected request_of]; notify;
    unfold step, exec, click;
    cbn [snd notified set_notifications set_tracked set_promises notifications];
    rewrite pred_length_snoc, lookup_snoc_length;
    cbn; eval_m; unfold atom.dismiss; cbn;
    rewrite ?lookup_snoc_length; cbn;
    by rewrite Hps, insert_snoc_length.
Qed.

Lemma remediation_request (op : Op) (st st' : State) :
  is_remediation op = true -> request_of op st = request_of op st'.
Proof. by destruct op. Qed.

Lemma retries_promises (op : Op) (st0 : State) (errs : list jsvalue) :
  is_remediation op = true ->
  forall (st : State) (ps : list Promise),
    promises st = ps ++ [promise_of (request_of op st0)] ->
    exists ps',
      promises (retries errs st) = ps' ++ [promise_of (request_of op st0)]
      /\ map request ps'
         = map request ps ++ replicate (length errs) (request_of op st0).
Proof.
  intros Hop. induction errs as [|err errs IH]; intros st ps Hps.
  - exists ps. split; [exact Hps | by rewrite app_nil_r].
  - rewrite (remediation_request op st0 st Hop) in Hps.
    pose proof (fail_and_retry_promises op st ps err Hop Hps) as Hstep.
    rewrite (remediation_request op st st0 Hop) in Hstep.
    destruct (IH _ _ Hstep) as (ps' & Hps' & Hmap).
    exists ps'. split; [exact Hps'|].
    rewrite Hmap, map_app, <- app_assoc. cbn.
    by rewrite request_promise_of.
Qed.

(** The failure of a remediation presents an error notification whose
    description is the serialized error and whose one button, "Retry", calls
    the same method. *)
Lemma failure_offers_retry (op : Op) (st st0 : State) (i : nat) (err : jsvalue) :
  is_remediation op = true ->
  pending st i (request_of op st0) ->
  exists n c,
    shows st (step (Reject i err) st) n
    /\ severity n = Error
    /\ description (options n) = JSON.stringify err
    /\ buttons (options n) = [{| text := "Retry"; onDidClick := c |}]
    /\ calls c = [op].
Proof.
  intros Hop H. destruct (reject_pending _ _ _ err H) as (g & Hg & ->).
  destruct op; try discriminate Hop; injection Hg as <-;
    unfold exec; cbn [Ready.on_rejected]; notify;
    eexists; eexists; repeat split; reflexivity.
Qed.

(** C8: a remediation is called, and then any number of times its promise is
    rejected and "Retry" is clicked. Every retry makes the request of the
    first call again, with the same arguments: the requests made are that
    one request, once for the call and once for every retry; the newest one
    is pending with the reaction of the same method, and its failure offers
    "Retry" on the same method again. *)
Theorem retry_repeats_request (op : Op) (st : State) (errs : list jsvalue) :
  is_remediation op = true ->
  let st' := retries errs (step (Invoke op) st) in
  let newest := pred (length (promises st')) in
  new_requests st st' = replicate (S (length errs)) (request_of op st)
  /\ pending st' newest (request_of op st)
  /\ forall err, exists n c,
       shows st' (step (Reject newest err) st') n
       /\ buttons (options n) = [{| text := "Retry"; onDidClick := c |}]
       /\ calls c = [op].
Proof.
  intros Hop st' newest. subst st' newest.
  assert (Hps : promises (step (Invoke op) st)
                = promises st ++ [promise_of (request_of op st)])
    by apply invoke_promises.
  destruct (retries_promises op st errs Hop _ _ Hps) as (ps' & Hps' & Hmap).
  assert (Hpend : pending (retries errs (step (Invoke op) st))
                    (pred (length (promises (retries errs (step (Invoke op) st)))))
                    (request_of op st)).
  { unfold pending. rewrite Hps', pred_length_snoc. apply lookup_snoc_length. }
  split; [|split; [exact Hpend|]].
  - apply new_requests_snoc. unfold requests at 1. rewrite Hps', map_app, Hmap.
    rewrite <- app_assoc. f_equal. cbn [map]. rewrite request_promise_of.
    change [request_of op st] with (replicate 1 (request_of op st)).
    rewrite <- replicate_add. f_equal. lia.
  - intros err.
    destruct (failure_offers_retry op _ st _ err Hop Hpend)
      as (n & c & Hs & _ & _ & Hb & Hc).
    eauto.
Qed.

Lemma retry_repeats_request_witness :
  is_remediation (Whitelist "/Users/me/proj") = true
  /\ new_requests init
       (retries [E1; JNull; E1] (step (Invoke (Whitelist "/Users/me/proj")) init))
     = replicate 4 (whitelistPath "/Users/me/proj").
Proof.
  split; [reflexivity|].
  apply (retry_repeats_request (Whitelist "/Users/me/proj") init [E1; JNull; E1]).
  reflexivity.
Defined.

(** C4, on the code: after [launch] has failed and "Retry" was clicked,
    [launch] runs again but the error notification is still on screen. *)
Theorem launch_retry_keeps_notification (st : State) (i : nat) (err : jsvalue) :
  pending st i runKite ->
  let h := length (notifications st) in
  let st' := run [Reject i err; Click h 0] st in
  dismissed <$> notifications st' !! h = Some false
  /\ new_requests st st' = [runKite].
Proof.
  intros H h st'. subst h st'. cbn [run fold_left].
  destruct (reject_pending _ _ _ err H) as (g & Hg & ->). injection Hg as <-.
  unfold exec; cbn [Ready.on_rejected]; notify.
  unfold step, exec, click;
    cbn [snd notified set_notifications set_tracked set_promises notifications].
  rewrite lookup_snoc_length. cbn. eval_m.
  rewrite lookup_snoc_length. split; [reflexivity|].
  apply new_requests_snoc. unfold requests. cbn. rewrite map_app.
  erewrite requests_settle; [ | exact H | reflexivity ]. reflexivity.
Qed.

Lemma launch_retry_keeps_notification_witness :
  pending launching 0 runKite
  /\ dismissed <$> notifications (run [Reject 0 E1; Click 0 0] launching) !! 0
     = Some false.
Proof.
  split; [reflexivity|].
  apply (launch_retry_keeps_notification launching 0 E1). reflexivity.
Defined.

(** The sibling path: "Retry" after a failed [install] dismisses the error
    notification before [install] runs again. *)
Lemma install_retry_dismisses (st : State) (i : nat) (err : jsvalue) :
  pending st i installKiteRelease ->
  let h := length (notifications st) in
  let st' := run [Reject i err; Click h 0] st in
  dismissed <$> notifications st' !! h = Some true
  /\ new_requests st st' = [installKiteRelease].
Proof.
  intros H h st'. subst h st'. cbn [run fold_left].
  destruct (reject_pending _ _ _ err H) as (g & Hg & ->). injection Hg as <-.
  unfold exec; cbn [Ready.on_rejected]; notify.
  unfold step, exec, click;
    cbn [snd notified set_notifications set_tracked set_promises notifications].
  rewrite lookup_snoc_length. cbn. eval_m. unfold atom.dismiss. cbn.
  rewrite lookup_snoc_length. cbn. rewrite insert_snoc_length.
  rewrite lookup_snoc_length. split; [reflexivity|].
  apply new_requests_snoc. unfold requests. cbn. rewrite map_app.
  erewrite requests_settle; [ | exact H | reflexivity ]. reflexivity.
Qed.

(** *** Rejections are always handled *)

Create HintDb handled.

Lemma preserves_ret {A} (a : A) : preserves (mret a).
Proof. intros st H. exact H. Qed.

Lemma preserves_bind {A B} (m : M A) (k : A -> M B) :
  preserves m -> (forall a, preserves (k a)) -> preserves (m ≫= k).
Proof.
  intros Hm Hk st H. unfold mbind, M_bind.
  specialize (Hm st H). destruct (m st) as [a st1]. by apply Hk.
Qed.

Lemma preserves_track name : preserves (metrics.track name).
Proof. intros st H. exact H. Qed.

Lemma preserves_track_with name a : preserves (metrics.track_with name a).
Proof. intros st H. exact H. Qed.

Lemma preserves_get {A} (f : State -> A) : preserves (get f).
Proof. intros st H. exact H. Qed.

Lemma preserves_add sev t opts : preserves (atom.add sev t opts).
Proof. intros st H. exact H. Qed.

Lemma preserves_onDidDismiss h cb : preserves (atom.onDidDismiss h cb).
Proof. intros st H. exact H. Qed.

Lemma preserves_dismiss h : preserves (atom.dismiss h).
Proof.
  intros st H. unfold atom.dismiss.
  destruct (notifications st !! h) as [n|]; [|exact H].
  destruct (dismissable (options n) && negb (dismissed n)); exact H.
Qed.

Lemma preserves_setTimeout cb delay : preserves (atom.setTimeout cb delay).
Proof. intros st H. exact H. Qed.

Lemma preserves_call_then r f g :
  preserves (StateController.call_then r f (Some g)).
Proof.
  intros st [Hp Hu]. split; [|exact Hu]. cbn.
  apply Forall_app. split; [exact Hp|]. by repeat constructor.
Qed.

#[local] Hint Resolve preserves_ret preserves_track preserves_track_with
  preserves_get preserves_add preserves_onDidDismiss preserves_dismiss
  preserves_setTimeout preserves_call_then : handled.

Ltac preserves :=
  repeat first
    [ solve [auto with handled]
    | apply preserves_bind; [|intros ?] ].

Lemma preserves_currentPath : preserves Ready.currentPath.
Proof.
  unfold Ready.currentPath, atom.getActivePaneItem.
  apply preserves_bind; [auto with handled|].
  intros [[[[[[?]|]]|]]|]; cbn [buffer file]; auto with handled.
Qed.

#[local] Hint Resolve preserves_currentPath : handled.

Lemma preserves_invoke (op : Op) : preserves (Ready.invoke op).
Proof.
  destruct op; cbn [Ready.invoke];
    unfold Ready.ensure, Ready.install, Ready.launch, Ready.authenticate,
      Ready.whitelist; preserves.
Qed.

#[local] Hint Resolve preserves_invoke : handled.

Lemma preserves_on_fulfilled (f : OnFulfilled) (v : Value) :
  preserves (Ready.on_fulfilled f v).
Proof.
  destruct f as [[p|]| | | |d]; try destruct v as [|[]];
    cbn [Ready.on_fulfilled];
    unfold Ready.warnNotSupported, Ready.warnNotInstalled,
      Ready.warnNotRunning, Ready.warnNotReachable,
      Ready.warnNotAuthenticated, Ready.warnNotWhitelisted,
      atom.addError, atom.addWarning,
      Ready.ensure, Ready.launch; preserves.
Qed.

Lemma preserves_on_rejected (g : OnRejected) (err : jsvalue) :
  preserves (Ready.on_rejected g err).
Proof.
  destruct g; cbn [Ready.on_rejected];
    unfold atom.addError, atom.addWarning; preserves.
Qed.

Lemma preserves_run_closure (c : Closure) : preserves (run_closure c).
Proof.
  induction c as [|s c IH]; cbn [run_closure]; [auto with handled|].
  apply preserves_bind; [|intros _; exact IH].
  destruct s as [name [a|]| |]; cbn [run_stmt]; auto with handled.
Qed.

Lemma preserves_run_closures (cs : list Closure) : preserves (run_closures cs).
Proof.
  induction cs as [|c cs IH]; cbn [run_closures]; [auto with handled|].
  apply preserves_bind; [apply preserves_run_closure | intros _; exact IH].
Qed.

Lemma handled_settle (st : State) (i : nat) (p : Promise) :
  promises st !! i = Some p -> handled st ->
  handled (set_promises (fun l => <[i := mark_settled p]> l) st).
Proof.
  intros Hi [Hp Hu]. split; [|exact Hu]. cbn.
  apply Forall_insert; [exact Hp|]. cbn.
  exact (proj1 (Forall_lookup _ _) Hp i p Hi).
Qed.

(** Every event keeps the invariant. *)
Lemma step_handled (e : Event) (st : State) :
  handled st -> handled (step e st).
Proof.
  intros H. destruct e as [op|i v|i err|h b|h|dt|item]; unfold step, exec.
  - by apply preserves_invoke.
  - unfold resolve. destruct (promises st !! i) as [p|] eqn:Hi; [|exact H].
    destruct (settled p); [exact H|].
    apply preserves_on_fulfilled. by apply handled_settle.
  - unfold reject. destruct (promises st !! i) as [p|] eqn:Hi; [|exact H].
    destruct (settled p); [exact H|].
    destruct (onRejected p) as [g|] eqn:Hg.
    + apply preserves_on_rejected. by apply handled_settle.
    + destruct H as [Hp Hu].
      pose proof (proj1 (Forall_lookup _ _) Hp i p Hi) as [g' Hg'].
      congruence.
  - unfold click. destruct (notifications st !! h) as [n|]; [|exact H].
    destruct (dismissed n); [exact H|].
    destruct (buttons (options n) !! b) as [btn|]; [|exact H].
    by apply preserves_run_closure.
  - by apply preserves_dismiss.
  - unfold advance. by apply preserves_run_closures.
  - exact H.
Qed.

Lemma run_handled (es : list Event) (st : State) :
  handled st -> handled (run es st).
Proof.
  revert st. induction es as [|e es IH]; intros st H; [exact H|].
  rewrite run_cons. apply IH. by apply step_handled.
Qed.

Lemma init_handled : handled init.
Proof. split; [constructor | reflexivity]. Qed.

(** C7: when the state query of [ensure] is rejected with [err], the
    controller tracks "handleState failed" with [err], presents no
    notification, makes no request and sets no timer; and neither this
    rejection nor any later one is left unhandled, whatever happens next. *)
Theorem query_failure_is_contained (evs later : list Event) (i : nat)
    (curpath : option string) (err : jsvalue) :
  let st := run evs init in
  pending st i (handleState curpath) ->
  let st' := step (Reject i err) st in
  tracked st' = tracked st ++ [failed_query err]
  /\ notifications st' = notifications st
  /\ requests st' = requests st
  /\ timers st' = timers st
  /\ unhandled (run later st') = [].
Proof.
  intros st H st'.
  assert (Hl : handled (run later st')).
  { apply run_handled, step_handled, run_handled, init_handled. }
  destruct Hl as [_ Hl]. subst st'.
  destruct (reject_pending _ _ _ err H) as (g & Hg & Hst).
  injection Hg as <-. rewrite Hst in *. unfold exec, requests; cbn.
  erewrite requests_settle; [ | exact H | reflexivity ].
  repeat split; try reflexivity. exact Hl.
Qed.

Lemma query_failure_is_contained_witness :
  pending (run [Invoke Ensure] init) 0 (handleState None)
  /\ tracked (step (Reject 0 E1) (run [Invoke Ensure] init)) = [failed_query E1]
  /\ notifications (step (Reject 0 E1) (run [Invoke Ensure] init)) = [].
Proof.
  split; [reflexivity|].
  pose proof (query_failure_is_contained [Invoke Ensure] [] 0 None E1 eq_refl)
    as (Ht & Hn & _).
  split; [exact Ht | exact Hn].
Defined.

(** ** Further properties *)

(** *** Running a callback *)

Lemma exec_bind {A B} (m : M A) (k : A -> M B) (st : State) :
  exec (m ≫= k) st = exec (k (m st).1) (m st).2.
Proof. unfold exec, mbind, M_bind. by destruct (m st). Qed.

Lemma invoke_frame (op : Op) (st : State) :
  let st' := exec (Ready.invoke op) st in
  notifications st' = notifications st /\ timers st' = timers st
  /\ unhandled st' = unhandled st /\ activePaneItem st' = activePaneItem st
  /\ now st' = now st.
Proof.
  destruct op; unfold exec; simpl; try rewrite ensure_eq; simpl; auto.
Qed.

Lemma request_of_frame (op : Op) (st st' : State) :
  activePaneItem st' = activePaneItem st -> request_of op st' = request_of op st.
Proof.
  intros H. destruct op; simpl; try reflexivity.
  by rewrite (current_path_frame _ _ H).
Qed.

Lemma run_stmt_plain (s : Stmt) (st : State) :
  keeps_notification [s] = true ->
  let st' := exec (run_stmt s) st in
  notifications st' = notifications st
  /\ promises st'
     = promises st ++ map (fun op => promise_of (request_of op st)) (calls [s])
  /\ activePaneItem st' = activePaneItem st
  /\ timers st' = timers st.
Proof.
  intros Hs. destruct s as [name [a|]|h|op]; try discriminate Hs;
    cbn [run_stmt calls flat_map app map].
  - cbn. by rewrite app_nil_r.
  - cbn. by rewrite app_nil_r.
  - destruct (invoke_frame op st) as (Hn & Ht & _ & Ha & _).
    rewrite invoke_promises. auto.
Qed.

(** A callback without [dismiss] leaves the notifications alone and makes
    the requests of the methods it calls, in order. *)
Lemma run_closure_plain (c : Closure) :
  forall st, keeps_notification c = true ->
    let st' := exec (run_closure c) st in
    notifications st' = notifications st
    /\ promises st'
       = promises st ++ map (fun op => promise_of (request_of op st)) (calls c)
    /\ activePaneItem st' = activePaneItem st
    /\ timers st' = timers st.
Proof.
  induction c as [|s c IH]; intros st Hc; cbn [run_closure].
  - cbn. by rewrite app_nil_r.
  - rewrite exec_bind. cbn [keeps_notification forallb] in Hc.
    apply andb_prop in Hc as [Hs Hc].
    assert (Hs' : keeps_notification [s] = true)
      by (cbn; by rewrite Hs).
    destruct (run_stmt_plain s st Hs') as (Hn1 & Hp1 & Ha1 & Ht1).
    destruct (IH (run_stmt s st).2 Hc) as (Hn & Hp & Ha & Ht).
    unfold exec in *. cbv zeta. rewrite Hn, Hp, Ha, Ht, Hn1, Hp1, Ha1, Ht1.
    repeat split; try reflexivity.
    assert (Hcons : calls (s :: c) = calls [s] ++ calls c)
      by (unfold calls; cbn [flat_map]; by rewrite app_nil_r).
    rewrite Hcons, map_app, <- app_assoc. do 2 f_equal.
    apply map_ext. intros op. f_equal. by apply request_of_frame.
Qed.

(** *** Clicking a button several times *)

Lemma click_plain (st : State) (h b : nat) (n : Notification) (btn : Button) :
  notifications st !! h = Some n ->
  dismissed n = false ->
  buttons (options n) !! b = Some btn ->
  keeps_notification (onDidClick btn) = true ->
  let st' := step (Click h b) st in
  notifications st' = notifications st
  /\ promises st'
     = promises st
       ++ map (fun op => promise_of (request_of op st)) (calls (onDidClick btn))
  /\ activePaneItem st' = activePaneItem st
  /\ timers st' = timers st.
Proof.
  intros Hn Hd Hb Hc. unfold step, exec, click. rewrite Hn, Hd, Hb.
  by apply run_closure_plain.
Qed.

Lemma clicks_plain (k : nat) (h b : nat) (n : Notification) (btn : Button)
    (op : Op) :
  forall st,
    notifications st !! h = Some n ->
    dismissed n = false ->
    buttons (options n) !! b = Some btn ->
    keeps_notification (onDidClick btn) = true ->
    calls (onDidClick btn) = [op] ->
    is_remediation op = true ->
    requests (clicks k h b st) = requests st ++ replicate k (request_of op st)
    /\ notifications (clicks k h b st) = notifications st.
Proof.
  induction k as [|k IH]; intros st Hn Hd Hb Hc Hcalls Hop; cbn [clicks].
  - cbn. by rewrite app_nil_r.
  - destruct (click_plain st h b n btn Hn Hd Hb Hc) as (Hn' & Hp' & _ & _).
    rewrite Hcalls in Hp'. cbn [map] in Hp'.
    rewrite <- Hn' in Hn. destruct (IH _ Hn Hd Hb Hc Hcalls Hop) as [Hr Hnn].
    rewrite Hr, Hnn, Hn'. split; [|reflexivity].
    unfold requests at 1. rewrite Hp', map_app, <- app_assoc. cbn [map app].
    rewrite request_promise_of.
    by rewrite (remediation_request op (step (Click h b) st) st Hop).
Qed.

Lemma click_dismissed (st : State) (h b : nat) (n : Notification) :
  notifications st !! h = Some n -> dismissed n = true ->
  step (Click h b) st = st.
Proof. intros Hn Hd. unfold step, exec, click. by rewrite Hn, Hd. Qed.

Lemma clicks_dismissed (k : nat) (st : State) (h b : nat) (n : Notification) :
  notifications st !! h = Some n -> dismissed n = true ->
  clicks k h b st = st.
Proof.
  intros Hn Hd. induction k as [|k IH]; cbn [clicks]; [reflexivity|].
  by rewrite (click_dismissed st h b n Hn Hd).
Qed.

(** The two callbacks for [install]: the click is tracked, the notification
    is dismissed, which runs its dismissal callbacks, and [install] runs. *)
Lemma click_install (st : State) (h b : nat) (n : Notification) (btn : Button)
    (name : string) :
  notifications st !! h = Some n ->
  dismissed n = false ->
  dismissable (options n) = true ->
  buttons (options n) !! b = Some btn ->
  onDidClick btn = [Track name None; Dismiss h; Call Install] ->
  let st' := step (Click h b) st in
  requests st' = requests st ++ [installKiteRelease]
  /\ notifications st' = <[h := atom.mark_dismissed n]> (notifications st)
  /\ tracked st'
     = tracked st ++ [{| event := name; attrs := None |}]
         ++ dismissCallbacks n
         ++ [{| event := "download-and-install started"; attrs := None |}].
Proof.
  intros Hn Hd Hdis Hb Hc. unfold step, exec, click. rewrite Hn, Hd, Hb, Hc.
  cbn [run_closure run_stmt]. eval_m. unfold atom.dismiss. cbn.
  rewrite Hn, Hdis, Hd. cbn. eval_m. unfold requests. rewrite map_app.
  rewrite <- !app_assoc. auto.
Qed.

Lemma notified_lookup sev t opts cb st :
  notifications (notified sev t opts cb st) !! length (notifications st)
  = Some {| severity := sev; title := t;
            options := opts (length (notifications st));
            dismissed := negb (dismissable (opts (length (notifications st))));
            dismissCallbacks := [cb] |}.
Proof. unfold notified. cbn. apply lookup_snoc_length. Qed.

Lemma served_requests (op : Op) (k : nat) (st st1 st2 : State) (n : Notification)
    (h : nat) :
  is_remediation op = true ->
  notifications st2 !! h = Some n -> dismissed n = true ->
  requests st2 = requests st1 ++ [request_of op st] ->
  new_requests st1 (clicks k h 0 st2) = [request_of op st].
Proof.
  intros Hop Hn Hd Hr. rewrite (clicks_dismissed k st2 h 0 n Hn Hd).
  by apply new_requests_snoc.
Qed.

(** X4: After [ensure] has presented a warning with a button, [k] clicks on the
    button make [k] requests of its method, the warning staying on screen;
    except "Install Kite", which dismisses the warning, so that only the
    first click makes a request. *)
Theorem warning_clicks (st : State) (i : nat) (curpath : option string)
    (s : LifecycleState) (op : Op) (k : nat) :
  pending st i (handleState curpath) ->
  warning_button s curpath = Some op ->
  let st' := step (Resolve i (VState s)) st in
  new_requests st' (clicks k (length (notifications st)) 0 st')
  = replicate (served op k) (request_of op st).
Proof.
  intros H Hb st'. subst st'. rewrite (resolve_pending _ _ _ _ H).
  unfold exec; cbn [promise_of onFulfilled Ready.on_fulfilled].
  destruct s; try discriminate Hb;
    [ | | | destruct curpath as [p|]; [|discriminate Hb] ];
    injection Hb as <-; notify; cbn [snd];
    match goal with
    | |- context [notified ?sev ?t ?opts ?cb ?s0] =>
        pose proof (notified_lookup sev t opts cb s0) as Hn;
        set (st1 := notified sev t opts cb s0) in *
    end;
    change (notifications (set_tracked _ _)) with (notifications st) in Hn;
    cbn [dismissable negb] in Hn.
  - (* Install Kite *)
    destruct k as [|k]; [apply new_requests_snoc; cbn; by rewrite app_nil_r|].
    cbn [served clicks].
    edestruct (click_install st1 (length (notifications st)) 0) as (Hr & Hnn & _);
      [exact Hn | reflexivity | reflexivity | reflexivity | reflexivity |].
    replace (Nat.min (S k) 1) with 1 by lia.
    eapply (served_requests Install k st); [reflexivity | | | exact Hr].
    + rewrite Hnn. apply list_lookup_insert_eq. by eapply lookup_lt_Some.
    + reflexivity.
  - (* Start Kite *)
    apply new_requests_snoc.
    eapply proj1, (clicks_plain k _ 0 _ _ Launch st1 Hn); reflexivity.
  - (* Login *)
    apply new_requests_snoc.
    eapply proj1, (clicks_plain k _ 0 _ _ Authenticate st1 Hn); reflexivity.
  - (* Enable Kite for dir *)
    apply new_requests_snoc.
    eapply proj1, (clicks_plain k _ 0 _ _ (Whitelist (path.dirname p)) st1 Hn);
      reflexivity.
Qed.

Lemma warning_clicks_witness :
  pending querying 0 (handleState (Some a_file))
  /\ warning_button AUTHENTICATED (Some a_file) = Some (Whitelist "/Users/me/proj")
  /\ new_requests (step (Resolve 0 (VState AUTHENTICATED)) querying)
       (clicks 3 0 0 (step (Resolve 0 (VState AUTHENTICATED)) querying))
     = replicate 3 (whitelistPath "/Users/me/proj").
Proof.
  split; [reflexivity|]. split; [reflexivity|].
  apply (warning_clicks querying 0 (Some a_file) AUTHENTICATED
           (Whitelist "/Users/me/proj") 3); reflexivity.
Defined.

(** X6: After a remediation has failed, [k] clicks on "Retry" make [k] requests
    of the remediation, the error staying on screen; except after a failed
    [install], whose "Retry" dismisses the error, so that only the first
    click makes a request. *)
Theorem retry_clicks (op : Op) (st st0 : State) (i : nat) (err : jsvalue)
    (k : nat) :
  is_remediation op = true ->
  pending st i (request_of op st0) ->
  let st' := step (Reject i err) st in
  new_requests st' (clicks k (length (notifications st)) 0 st')
  = replicate (served op k) (request_of op st0).
Proof.
  intros Hop H st'. subst st'.
  destruct (reject_pending _ _ _ err H) as (g & Hg & ->).
  destruct op; try discriminate Hop; injection Hg as <-;
    unfold exec; cbn [Ready.on_rejected]; notify; cbn [snd];
    match goal with
    | |- context [notified ?sev ?t ?opts ?cb ?s0] =>
        pose proof (notified_lookup sev t opts cb s0) as Hn;
        set (st1 := notified sev t opts cb s0) in *
    end;
    change (notifications (set_tracked _ _)) with (notifications st) in Hn;
    cbn [dismissable negb Ready.error_options] in Hn.
  - (* install *)
    destruct k as [|k]; [apply new_requests_snoc; cbn; by rewrite app_nil_r|].
    cbn [served clicks].
    edestruct (click_install st1 (length (notifications st)) 0) as (Hr & Hnn & _);
      [exact Hn | reflexivity | reflexivity | reflexivity | reflexivity |].
    replace (Nat.min (S k) 1) with 1 by lia.
    eapply (served_requests Install k st); [reflexivity | | | exact Hr].
    + rewrite Hnn. apply list_lookup_insert_eq. by eapply lookup_lt_Some.
    + reflexivity.
  - apply new_requests_snoc.
    eapply proj1, (clicks_plain k _ 0 _ _ Launch st1 Hn); reflexivity.
  - apply new_requests_snoc.
    eapply proj1, (clicks_plain k _ 0 _ _ Authenticate st1 Hn); reflexivity.
  - apply new_requests_snoc.
    eapply proj1, (clicks_plain k _ 0 _ _ (Whitelist dirpath) st1 Hn);
      reflexivity.
Qed.

Lemma retry_clicks_witness :
  is_remediation Launch = true
  /\ pending launching 0 (request_of Launch init)
  /\ new_requests (step (Reject 0 E1) launching)
       (clicks 2 0 0 (step (Reject 0 E1) launching))
     = [runKite; runKite].
Proof.
  split; [reflexivity|]. split; [reflexivity|].
  apply (retry_clicks Launch launching init 0 E1 2); reflexivity.
Defined.

Lemma click_nothing (st : State) (h b : nat) :
  (forall n, notifications st !! h = Some n -> buttons (options n) !! b = None) ->
  step (Click h b) st = st.
Proof.
  intros Hn. unfold step, exec, click.
  destruct (notifications st !! h) as [n|]; [|reflexivity].
  destruct (dismissed n); [reflexivity|]. by rewrite (Hn n eq_refl).
Qed.

(** X5: When [ensure] presents nothing or a notification without a button
    (UNSUPPORTED, RUNNING, WHITELISTED, AUTHENTICATED without a file), no
    click at the place of that notification changes anything: the user is
    offered no remediation. *)
Theorem no_button_no_remediation (st : State) (i : nat)
    (curpath : option string) (s : LifecycleState) (k b : nat) :
  pending st i (handleState curpath) ->
  warning_button s curpath = None ->
  let st' := step (Resolve i (VState s)) st in
  clicks k (length (notifications st)) b st' = st'.
Proof.
  intros H Hb st'. subst st'. rewrite (resolve_pending _ _ _ _ H).
  unfold exec; cbn [promise_of onFulfilled Ready.on_fulfilled].
  assert (Hnone : forall st1 : State,
            (forall n, notifications st1 !! length (notifications st) = Some n ->
                       buttons (options n) !! b = None) ->
            clicks k (length (notifications st)) b st1 = st1).
  { intros st1 Hst1. induction k as [|k IH]; cbn [clicks]; [reflexivity|].
    by rewrite (click_nothing st1 _ b Hst1). }
  destruct s; try discriminate Hb;
    [ | | destruct curpath; [discriminate Hb|] | ];
    notify; cbn [snd]; apply Hnone; intros n.
  - unfold notified; cbn. rewrite lookup_snoc_length. by intros [= <-].
  - unfold notified; cbn. rewrite lookup_snoc_length. by intros [= <-].
  - cbn. rewrite lookup_ge_None_2 by lia. discriminate.
  - cbn. rewrite lookup_ge_None_2 by lia. discriminate.
Qed.

Lemma no_button_no_remediation_witness :
  pending querying 0 (handleState (Some a_file))
  /\ warning_button RUNNING (Some a_file) = None
  /\ clicks 2 0 0 (step (Resolve 0 (VState RUNNING)) querying)
     = step (Resolve 0 (VState RUNNING)) querying.
Proof.
  split; [reflexivity|]. split; [reflexivity|].
  apply (no_button_no_remediation querying 0 (Some a_file) RUNNING 2 0);
    reflexivity.
Defined.

(** *** Failures *)

Lemma failure_frame (st : State) (i : nat) (err : jsvalue) :
  requests (step (Reject i err) st) = requests st
  /\ timers (step (Reject i err) st) = timers st.
Proof.
  unfold step, exec, reject.
  destruct (promises st !! i) as [p|] eqn:Hi; [|auto].
  destruct (settled p); [auto|].
  assert (Hs : map request (<[i := mark_settled p]> (promises st)) = requests st)
    by (by apply (requests_settle st i p)).
  destruct (onRejected p) as [g|]; [|cbn; auto].
  destruct g; cbn [Ready.on_rejected]; notify; cbn; auto.
Qed.

Lemma failure_requests_aux (st : State) (i : nat) (err : jsvalue) :
  requests (step (Reject i err) st) = requests st.
Proof. apply failure_frame. Qed.

(** X8: The rejection of a promise never makes a request and never sets a timer,
    in any state: a failed remediation is retried by a click only. *)
Theorem failure_makes_no_request (st : State) (i : nat) (err : jsvalue) :
  requests (step (Reject i err) st) = requests st
  /\ timers (step (Reject i err) st) = timers st.
Proof. apply failure_frame. Qed.

(** *** The shape of reachable states *)

Lemma promise_of_wf (r : Request) : request_wf r -> promise_wf (promise_of r).
Proof.
  intros Hr. split; rewrite request_promise_of; [by left | exact Hr].
Qed.

Lemma request_of_wf (op : Op) (st : State) : request_wf (request_of op st).
Proof. destruct op; cbn; auto. Qed.

Lemma mark_settled_wf (p : Promise) : promise_wf p -> promise_wf (mark_settled p).
Proof.
  intros [Hp Hr]. split; [|exact Hr]. right.
  change (request (mark_settled p)) with (request p).
  destruct Hp as [Hp|Hp]; rewrite Hp at 1; reflexivity.
Qed.

Lemma wf_settle (st : State) (i : nat) (p : Promise) :
  promises st !! i = Some p -> wf st ->
  wf (set_promises (fun l => <[i := mark_settled p]> l) st).
Proof.
  intros Hi (Hp & Hn & Ht). split; [|split; assumption]. cbn.
  apply Forall_insert; [exact Hp|]. apply mark_settled_wf.
  exact (proj1 (Forall_lookup _ _) Hp i p Hi).
Qed.

Lemma wf_push_promise (st : State) (r : Request) :
  request_wf r -> wf st ->
  wf (set_promises (fun l => l ++ [promise_of r]) st).
Proof.
  intros Hr (Hp & Hn & Ht). split; [|split; assumption]. cbn.
  apply Forall_app. split; [exact Hp|].
  constructor; [by apply promise_of_wf | constructor].
Qed.

Lemma wf_notified sev t opts cb (st : State) :
  options_wf (length (notifications st)) (opts (length (notifications st))) ->
  wf st -> wf (notified sev t opts cb st).
Proof.
  intros Ho (Hp & Hn & Ht). split; [exact Hp|]. split; [|exact Ht].
  intros h n. unfold notified; cbn. intros Hl.
  apply lookup_snoc_Some in Hl as [[_ Hl]|[-> <-]]; [by apply Hn|].
  split; [exact Ho | by eexists].
Qed.

Lemma wf_invoke (op : Op) (st : State) : wf st -> wf (exec (Ready.invoke op) st).
Proof.
  intros Hwf. destruct op; unfold exec; cbn [Ready.invoke]; eval_m;
    rewrite ?ensure_eq; cbn [snd];
    first [ apply (wf_push_promise _ (handleState _))
          | apply (wf_push_promise _ installKiteRelease)
          | apply (wf_push_promise _ runKite)
          | apply (wf_push_promise _ (authenticateUser _ _))
          | apply (wf_push_promise _ (whitelistPath _)) ];
    cbn; auto.
Qed.

Lemma wf_dismiss (h : nat) (st : State) : wf st -> wf (exec (atom.dismiss h) st).
Proof.
  intros Hwf. unfold exec, atom.dismiss.
  destruct (notifications st !! h) as [n|] eqn:Hh; [|exact Hwf].
  destruct (dismissable (options n) && negb (dismissed n)); [|exact Hwf].
  destruct Hwf as (Hp & Hn & Ht). split; [exact Hp|]. split; [|exact Ht].
  cbn. intros h' n' Hl.
  destruct (decide (h = h')) as [<-|Hne].
  - rewrite list_lookup_insert_eq in Hl by (by eapply lookup_lt_Some).
    injection Hl as <-. exact (Hn h n Hh).
  - rewrite list_lookup_insert_ne in Hl by exact Hne. by apply Hn.
Qed.

Lemma wf_run_closure (c : Closure) :
  forall st, wf st -> wf (exec (run_closure c) st).
Proof.
  induction c as [|s c IH]; intros st Hwf; cbn [run_closure]; [exact Hwf|].
  rewrite exec_bind. apply IH. fold (exec (run_stmt s) st).
  destruct s as [name [a|]|h|op]; cbn [run_stmt].
  - exact Hwf.
  - exact Hwf.
  - by apply wf_dismiss.
  - by apply wf_invoke.
Qed.

Lemma wf_run_closures (cs : list Closure) :
  forall st, wf st -> wf (exec (run_closures cs) st).
Proof.
  induction cs as [|c cs IH]; intros st Hwf; cbn [run_closures]; [exact Hwf|].
  rewrite exec_bind. apply IH. by apply wf_run_closure.
Qed.

(** The options of the notifications of the source have that shape. *)
Ltac options_ok :=
  repeat first
    [ split
    | reflexivity
    | lia
    | constructor
    | eexists; split; reflexivity ];
  cbn; auto.

Lemma wf_on_fulfilled (f : OnFulfilled) (v : Value) (st : State) :
  wf st -> wf (exec (Ready.on_fulfilled f v) st).
Proof.
  intros Hwf. unfold exec.
  destruct f as [curpath| | | |d]; cbn [Ready.on_fulfilled].
  - destruct v as [|[]]; try exact Hwf;
      [ | | | | | destruct curpath as [p|]; [|exact Hwf] ];
      notify; cbn [snd]; (apply wf_notified; [|exact Hwf]);
      cbn; options_ok.
  - eval_m. by apply (wf_push_promise _ runKite).
  - destruct Hwf as (Hp & Hn & Ht). split; [exact Hp|]. split; [exact Hn|].
    cbn. apply Forall_app. split; [exact Ht|]. by repeat constructor.
  - eval_m. rewrite ensure_eq. cbn [snd].
    by apply (wf_push_promise _ (handleState _)).
  - eval_m. rewrite ensure_eq. cbn [snd].
    by apply (wf_push_promise _ (handleState _)).
Qed.

Lemma wf_on_rejected (g : OnRejected) (err : jsvalue) (st : State) :
  wf st -> wf (exec (Ready.on_rejected g err) st).
Proof.
  intros Hwf. unfold exec. destruct g; cbn [Ready.on_rejected];
    [exact Hwf | | | | ];
    notify; cbn [snd]; (apply wf_notified; [|exact Hwf]); cbn; options_ok.
Qed.

Lemma Forall_filter_keep {A} (P : A -> Prop) (f : A -> bool) (l : list A) :
  Forall P l -> Forall P (List.filter f l).
Proof.
  induction 1 as [|x l Hx Hl IH]; cbn; [constructor|].
  destruct (f x); [by constructor | exact IH].
Qed.

(** Every event keeps the shape. *)
Lemma step_wf (e : Event) (st : State) : wf st -> wf (step e st).
Proof.
  intros H. destruct e as [op|i v|i err|h b|h|dt|item]; unfold step.
  - by apply wf_invoke.
  - unfold exec, resolve. destruct (promises st !! i) as [p|] eqn:Hi; [|exact H].
    destruct (settled p); [exact H|].
    apply wf_on_fulfilled. by apply wf_settle.
  - unfold exec, reject. destruct (promises st !! i) as [p|] eqn:Hi; [|exact H].
    destruct (settled p) eqn:Hs; [exact H|].
    destruct (onRejected p) as [g|] eqn:Hg.
    + apply wf_on_rejected. by apply wf_settle.
    + destruct H as (Hp & _).
      destruct (proj1 (Forall_lookup _ _) Hp i p Hi) as [[Hq|Hq] _];
        rewrite Hq in Hg; destruct (request p); discriminate Hg.
  - unfold exec, click. destruct (notifications st !! h) as [n|]; [|exact H].
    destruct (dismissed n); [exact H|].
    destruct (buttons (options n) !! b) as [btn|]; [|exact H].
    by apply wf_run_closure.
  - by apply wf_dismiss.
  - unfold exec, advance. apply wf_run_closures.
    destruct H as (Hp & Hn & Ht). split; [exact Hp|]. split; [exact Hn|].
    cbn. by apply Forall_filter_keep.
  - exact H.
Qed.

Lemma run_wf (es : list Event) (st : State) : wf st -> wf (run es st).
Proof.
  revert st. induction es as [|e es IH]; intros st H; [exact H|].
  rewrite run_cons. apply IH. by apply step_wf.
Qed.

Lemma init_wf : wf init.
Proof.
  split; [constructor|]. split; [|constructor]. intros h n Hl. discriminate Hl.
Qed.

Lemma reachable_wf (evs : list Event) : wf (run evs init).
Proof. apply run_wf, init_wf. Qed.

(** X14: In every reachable state, an unsettled promise is pending with the
    reaction of the call site of its request: the rejection callback that
    belongs to it, and for a state query the path that [ensure] read. *)
Theorem reachable_promises_pending (evs : list Event) (i : nat) (p : Promise) :
  promises (run evs init) !! i = Some p ->
  settled p = false ->
  pending (run evs init) i (request p).
Proof.
  intros Hi Hs. destruct (reachable_wf evs) as (Hp & _).
  destruct (proj1 (Forall_lookup _ _) Hp i p Hi) as [[Hq|Hq] _].
  - unfold pending. by rewrite <- Hq.
  - rewrite Hq in Hs. discriminate Hs.
Qed.

Lemma reachable_promises_pending_witness :
  promises (run [Invoke Install; Resolve 0 VUndefined] init) !! 1
  = Some (promise_of runKite)
  /\ settled (promise_of runKite) = false
  /\ pending (run [Invoke Install; Resolve 0 VUndefined] init) 1 runKite.
Proof.
  split; [reflexivity|]. split; [reflexivity|].
  apply (reachable_promises_pending [Invoke Install; Resolve 0 VUndefined] 1
           (promise_of runKite)); reflexivity.
Defined.

(** X15: In every reachable state, every authentication request carries the
    e-mail address and the password written in [authenticate]. *)
Theorem credentials_are_fixed (evs : list Event) (e pw : string) :
  In (authenticateUser e pw) (requests (run evs init)) ->
  e = "test@kite.com" /\ pw = "123123".
Proof.
  intros Hin. destruct (reachable_wf evs) as (Hp & _).
  unfold requests in Hin. apply in_map_iff in Hin as (p & Hr & Hin).
  apply list_elem_of_In in Hin.
  destruct (proj1 (Forall_forall _ _) Hp p Hin) as [_ Hw].
  rewrite Hr in Hw. exact Hw.
Qed.

Lemma credentials_are_fixed_witness :
  In (authenticateUser "test@kite.com" "123123")
    (requests (run [Invoke Authenticate] init))
  /\ "test@kite.com" = "test@kite.com" /\ "123123" = "123123".
Proof.
  split; [left; reflexivity|].
  apply (credentials_are_fixed [Invoke Authenticate]). left. reflexivity.
Defined.

(** X13: In every reachable state, every notification is dismissable, has one
    dismissal callback and at most one button; the button calls exactly one
    method, which is a remediation, and dismisses no notification but its
    own. *)
Theorem presented_notifications_shape (evs : list Event) (h : nat)
    (n : Notification) :
  notifications (run evs init) !! h = Some n ->
  notification_wf h n.
Proof. intros Hh. destruct (reachable_wf evs) as (_ & Hn & _). by apply Hn. Qed.

Lemma presented_notifications_shape_witness :
  (exists n, notifications (run [Invoke Install; Reject 0 E1] init) !! 0 = Some n
             /\ notification_wf 0 n).
Proof.
  eexists. split; [reflexivity|].
  apply (presented_notifications_shape [Invoke Install; Reject 0 E1] 0).
  reflexivity.
Defined.

Lemma presented_wf_aux (evs : list Event) (h : nat) (n : Notification) :
  notifications (run evs init) !! h = Some n -> notification_wf h n.
Proof. intros Hh. destruct (reachable_wf evs) as (_ & Hn & _). by apply Hn. Qed.

(** X12: In every reachable state, when the user closes a notification that is
    on screen, its one dismissal event is tracked and nothing else happens;
    closing it again, or clicking its button afterwards, changes nothing. *)
Theorem dismissal_is_tracked_once (evs : list Event) (h : nat)
    (n : Notification) :
  let st := run evs init in
  notifications st !! h = Some n ->
  dismissed n = false ->
  let st' := step (UserDismiss h) st in
  exists cb,
    dismissCallbacks n = [cb]
    /\ tracked st' = tracked st ++ [cb]
    /\ requests st' = requests st
    /\ timers st' = timers st
    /\ step (UserDismiss h) st' = st'
    /\ forall b, step (Click h b) st' = st'.
Proof.
  intros st Hh Hd st'.
  destruct (presented_wf_aux evs h n Hh) as [(Hdis & _) [cb Hcb]].
  exists cb. split; [exact Hcb|]. subst st'.
  assert (Hst : step (UserDismiss h) st
                = set_tracked (fun l => l ++ [cb])
                    (set_notifications (fun l => <[h := atom.mark_dismissed n]> l) st)).
  { unfold step, exec, atom.dismiss. fold st. by rewrite Hh, Hdis, Hd, Hcb. }
  rewrite Hst.
  assert (Hh' : notifications
                  (set_tracked (fun l => l ++ [cb])
                     (set_notifications
                        (fun l => <[h := atom.mark_dismissed n]> l) st)) !! h
                = Some (atom.mark_dismissed n)).
  { cbn. apply list_lookup_insert_eq. by eapply lookup_lt_Some. }
  repeat split; try reflexivity.
  - unfold step, exec, atom.dismiss. rewrite Hh'. cbn. by rewrite Hdis.
  - intros b. by apply (click_dismissed _ h b _ Hh').
Qed.

Lemma dismissal_is_tracked_once_witness :
  notifications (run [Invoke Launch; Reject 0 E1] init) !! 0
  = Some {| severity := Error;
            title := "Unable to start Kite autocomplete daemon";
            options := Ready.error_options E1
                         [Track "retry button clicked (via launch error)" None;
                          Call Launch];
            dismissed := false;
            dismissCallbacks :=
              [{| event := "launch error dismissed"; attrs := None |}] |}
  /\ exists cb,
       tracked (step (UserDismiss 0) (run [Invoke Launch; Reject 0 E1] init))
       = tracked (run [Invoke Launch; Reject 0 E1] init) ++ [cb]
       /\ event cb = "launch error dismissed".
Proof.
  split; [reflexivity|].
  destruct (dismissal_is_tracked_once [Invoke Launch; Reject 0 E1] 0 _
              eq_refl eq_refl) as (cb & Hcb & Ht & _).
  exists cb. split; [exact Ht|]. by injection Hcb as <-.
Defined.

(** *** Timers in reachable states *)

Lemma run_timer_callbacks (tms : list Timer) :
  forall st, Forall timer_wf tms ->
    let st' := exec (run_closures (map callback tms)) st in
    promises st'
    = promises st
      ++ replicate (length tms) (promise_of (handleState (current_path st)))
    /\ notifications st' = notifications st
    /\ activePaneItem st' = activePaneItem st
    /\ timers st' = timers st.
Proof.
  induction tms as [|tm tms IH]; intros st Hwf; cbn [map run_closures].
  - cbn. by rewrite app_nil_r.
  - rewrite exec_bind. apply Forall_cons in Hwf as [Htm Hwf].
    fold (exec (run_closure (callback tm)) st). rewrite Htm.
    destruct (run_closure_plain
                [Track "launch succeeded" None; Call Ensure] st eq_refl)
      as (Hn1 & Hp1 & Ha1 & Ht1).
    destruct (IH (exec (run_closure
                          [Track "launch succeeded" None; Call Ensure]) st) Hwf)
      as (Hp & Hn & Ha & Ht).
    unfold exec in *. cbv zeta.
    rewrite Hp, Hn, Ha, Ht, Hn1, Hp1, Ha1, Ht1.
    rewrite (current_path_frame _ _ Ha1).
    cbn [calls flat_map map app length replicate request_of].
    rewrite <- app_assoc. auto.
Qed.

Lemma map_replicate_const {A B} (f : A -> B) (k : nat) (x : A) :
  map f (replicate k x) = replicate k (f x).
Proof. induction k as [|k IH]; cbn; [reflexivity | by rewrite IH]. Qed.

Lemma time_requests_aux (evs : list Event) (dt : N) :
  let st := run evs init in
  let st' := step (Advance dt) st in
  requests st'
  = requests st
    ++ replicate (length (List.filter (is_due (now st + dt)) (timers st)))
         (handleState (current_path st))
  /\ notifications st' = notifications st.
Proof.
  intros st st'. subst st'. destruct (reachable_wf evs) as (_ & _ & Ht).
  fold st in Ht. unfold step, exec, advance.
  pose proof (run_timer_callbacks
                (List.filter (is_due (now st + dt)) (timers st))
                (set_timers
                   (fun _ => List.filter
                               (fun tm => negb (is_due (now st + dt) tm))
                               (timers st))
                   (set_now (now st + dt) st))
                (Forall_filter_keep _ _ _ Ht)) as (Hp & Hn & _).
  unfold exec in Hp, Hn. cbv zeta in Hp, Hn. split; [|exact Hn].
  unfold requests. rewrite Hp, map_app, map_replicate_const. f_equal.
  by rewrite (current_path_frame st _) by reflexivity.
Qed.

(** X11: In every reachable state, the passing of time only makes state queries:
    one for every timer that is due, with the path of the file that is
    active when the timer fires; it presents nothing. *)
Theorem time_only_requeries (evs : list Event) (dt : N) :
  let st := run evs init in
  let st' := step (Advance dt) st in
  requests st'
  = requests st
    ++ replicate (length (List.filter (is_due (now st + dt)) (timers st)))
         (handleState (current_path st))
  /\ notifications st' = notifications st.
Proof. apply time_requests_aux. Qed.

(** *** Nothing is lost *)

Lemma same_or_dismissed_refl (n : Notification) : same_or_dismissed n n.
Proof. by repeat split. Qed.

Lemma extends_same (st st' : State) :
  tracked st' = tracked st -> promises st' = promises st ->
  notifications st' = notifications st -> extends st st'.
Proof.
  intros Ht Hp Hn. repeat split.
  - exists []. by rewrite Ht, app_nil_r.
  - exists []. unfold requests. by rewrite Hp, app_nil_r.
  - intros h n Hh. exists n. rewrite Hn. split; [exact Hh|].
    apply same_or_dismissed_refl.
  - intros i p Hi _. by rewrite Hp.
Qed.

Lemma extends_refl (st : State) : extends st st.
Proof. by apply extends_same. Qed.

Lemma extends_trans (st1 st2 st3 : State) :
  extends st1 st2 -> extends st2 st3 -> extends st1 st3.
Proof.
  intros ([l1 Ht1] & [r1 Hr1] & Hn1 & Hp1) ([l2 Ht2] & [r2 Hr2] & Hn2 & Hp2).
  repeat split.
  - exists (l1 ++ l2). by rewrite Ht2, Ht1, app_assoc.
  - exists (r1 ++ r2). by rewrite Hr2, Hr1, app_assoc.
  - intros h n Hh. destruct (Hn1 h n Hh) as (n' & Hh' & H1 & H2 & H3 & H4).
    destruct (Hn2 h n' Hh') as (n'' & Hh'' & H5 & H6 & H7 & H8).
    exists n''. split; [exact Hh''|]. repeat split; try congruence. auto.
  - intros i p Hi Hs. apply Hp2; [by apply Hp1 | exact Hs].
Qed.

Lemma inflates_ret {A} (a : A) : inflates (mret a).
Proof. intros st. apply extends_refl. Qed.

Lemma inflates_bind {A B} (m : M A) (k : A -> M B) :
  inflates m -> (forall a, inflates (k a)) -> inflates (m ≫= k).
Proof.
  intros Hm Hk st. unfold mbind, M_bind.
  specialize (Hm st). destruct (m st) as [a st1].
  eapply extends_trans; [exact Hm | apply Hk].
Qed.

Lemma extends_track (st : State) (l : list MetricEvent) :
  extends st (set_tracked (fun t => t ++ l) st).
Proof.
  repeat split.
  - by exists l.
  - exists []. by rewrite app_nil_r.
  - intros h n Hh. exists n. split; [exact Hh | apply same_or_dismissed_refl].
  - by intros i p Hi _.
Qed.

Lemma inflates_track name : inflates (metrics.track name).
Proof. intros st. apply extends_track. Qed.

Lemma inflates_track_with name a : inflates (metrics.track_with name a).
Proof. intros st. apply extends_track. Qed.

Lemma inflates_get {A} (f : State -> A) : inflates (get f).
Proof. intros st. apply extends_refl. Qed.

Lemma inflates_add sev t opts : inflates (atom.add sev t opts).
Proof.
  intros st. repeat split.
  - exists []. by rewrite app_nil_r.
  - exists []. by rewrite app_nil_r.
  - intros h n Hh. exists n. split; [|apply same_or_dismissed_refl].
    cbn. by apply lookup_app_l_Some.
  - by intros i p Hi _.
Qed.

Lemma extends_update (st : State) (h : nat) (n n' : Notification) :
  notifications st !! h = Some n -> same_or_dismissed n n' ->
  extends st (set_notifications (fun l => <[h := n']> l) st).
Proof.
  intros Hh Hsd. repeat split.
  - exists []. by rewrite app_nil_r.
  - exists []. by rewrite app_nil_r.
  - intros h' m Hh'. cbn. destruct (decide (h = h')) as [<-|Hne].
    + exists n'. rewrite list_lookup_insert_eq by (by eapply lookup_lt_Some).
      split; [reflexivity|]. congruence.
    + exists m. rewrite list_lookup_insert_ne by exact Hne.
      split; [exact Hh' | apply same_or_dismissed_refl].
  - by intros i p Hi _.
Qed.

Lemma inflates_onDidDismiss h cb : inflates (atom.onDidDismiss h cb).
Proof.
  intros st. unfold atom.onDidDismiss, modify. cbn [snd].
  destruct (notifications st !! h) as [n|] eqn:Hh.
  - replace (set_notifications _ st)
      with (set_notifications (fun l => <[h := atom.add_callback cb n]> l) st)
      by (unfold set_notifications; by rewrite Hh).
    apply (extends_update st h n); [exact Hh | by repeat split].
  - apply extends_same; try reflexivity. cbn. by rewrite Hh.
Qed.

Lemma inflates_dismiss h : inflates (atom.dismiss h).
Proof.
  intros st. unfold atom.dismiss.
  destruct (notifications st !! h) as [n|] eqn:Hh; [|apply extends_refl].
  destruct (dismissable (options n) && negb (dismissed n));
    [|apply extends_refl].
  cbn [snd]. eapply extends_trans; [|apply extends_track].
  apply (extends_update st h n); [exact Hh | by repeat split].
Qed.

Lemma inflates_setTimeout cb delay : inflates (atom.setTimeout cb delay).
Proof. intros st. by apply extends_same. Qed.

Lemma inflates_call_then r f g : inflates (StateController.call_then r f g).
Proof.
  intros st. repeat split.
  - exists []. by rewrite app_nil_r.
  - eexists. unfold requests. cbn. by rewrite map_app.
  - intros h n Hh. exists n. split; [exact Hh | apply same_or_dismissed_refl].
  - intros i p Hi _. cbn. by apply lookup_app_l_Some.
Qed.

Create HintDb inflates.

#[local] Hint Resolve inflates_ret inflates_track inflates_track_with
  inflates_get inflates_add inflates_onDidDismiss inflates_dismiss
  inflates_setTimeout inflates_call_then : inflates.

Ltac inflates :=
  repeat first
    [ solve [auto with inflates]
    | apply inflates_bind; [|intros ?] ].

Lemma inflates_currentPath : inflates Ready.currentPath.
Proof.
  unfold Ready.currentPath, atom.getActivePaneItem.
  apply inflates_bind; [auto with inflates|].
  intros [[[[[[?]|]]|]]|]; cbn [buffer file]; auto with inflates.
Qed.

#[local] Hint Resolve inflates_currentPath : inflates.

Lemma inflates_invoke (op : Op) : inflates (Ready.invoke op).
Proof.
  destruct op; cbn [Ready.invoke];
    unfold Ready.ensure, Ready.install, Ready.launch, Ready.authenticate,
      Ready.whitelist; inflates.
Qed.

#[local] Hint Resolve inflates_invoke : inflates.

Lemma inflates_on_fulfilled (f : OnFulfilled) (v : Value) :
  inflates (Ready.on_fulfilled f v).
Proof.
  destruct f as [[p|]| | | |d]; try destruct v as [|[]];
    cbn [Ready.on_fulfilled];
    unfold Ready.warnNotSupported, Ready.warnNotInstalled,
      Ready.warnNotRunning, Ready.warnNotReachable,
      Ready.warnNotAuthenticated, Ready.warnNotWhitelisted,
      atom.addError, atom.addWarning,
      Ready.ensure, Ready.launch; inflates.
Qed.

Lemma inflates_on_rejected (g : OnRejected) (err : jsvalue) :
  inflates (Ready.on_rejected g err).
Proof.
  destruct g; cbn [Ready.on_rejected];
    unfold atom.addError, atom.addWarning; inflates.
Qed.

Lemma inflates_run_closure (c : Closure) : inflates (run_closure c).
Proof.
  induction c as [|s c IH]; cbn [run_closure]; [auto with inflates|].
  apply inflates_bind; [|intros _; exact IH].
  destruct s as [name [a|]| |]; cbn [run_stmt]; auto with inflates.
Qed.

Lemma inflates_run_closures (cs : list Closure) : inflates (run_closures cs).
Proof.
  induction cs as [|c cs IH]; cbn [run_closures]; [auto with inflates|].
  apply inflates_bind; [apply inflates_run_closure | intros _; exact IH].
Qed.

Lemma extends_settle (st : State) (i : nat) (p : Promise) :
  promises st !! i = Some p -> settled p = false ->
  extends st (set_promises (fun l => <[i := mark_settled p]> l) st).
Proof.
  intros Hi Hs. repeat split.
  - exists []. by rewrite app_nil_r.
  - exists []. unfold requests at 1. cbn.
    rewrite (requests_settle st i p) by done. by rewrite app_nil_r.
  - intros h n Hh. exists n. split; [exact Hh | apply same_or_dismissed_refl].
  - intros j q Hj Hq. cbn. destruct (decide (i = j)) as [<-|Hne].
    + congruence.
    + by rewrite list_lookup_insert_ne.
Qed.

Lemma step_extends (e : Event) (st : State) : extends st (step e st).
Proof.
  destruct e as [op|i v|i err|h b|h|dt|item]; unfold step, exec.
  - apply inflates_invoke.
  - unfold resolve. destruct (promises st !! i) as [p|] eqn:Hi;
      [|apply extends_refl].
    destruct (settled p) eqn:Hs; [apply extends_refl|].
    eapply extends_trans; [by apply (extends_settle st i p)|].
    apply inflates_on_fulfilled.
  - unfold reject. destruct (promises st !! i) as [p|] eqn:Hi;
      [|apply extends_refl].
    destruct (settled p) eqn:Hs; [apply extends_refl|].
    eapply extends_trans; [by apply (extends_settle st i p)|].
    destruct (onRejected p) as [g|]; [apply inflates_on_rejected|].
    by apply extends_same.
  - unfold click. destruct (notifications st !! h) as [n|];
      [|apply extends_refl].
    destruct (dismissed n); [apply extends_refl|].
    destruct (buttons (options n) !! b) as [btn|]; [|apply extends_refl].
    apply inflates_run_closure.
  - apply inflates_dismiss.
  - unfold advance. eapply extends_trans; [|apply inflates_run_closures].
    by apply extends_same.
  - by apply extends_same.
Qed.


(** *** The file of a check *)

Lemma set_activePaneItem_id (st : State) :
  set_activePaneItem (activePaneItem st) st = st.
Proof. by destruct st. Qed.

Lemma run_focus (items : list (option PaneItem)) :
  forall st, exists e, run (map Focus items) st = set_activePaneItem e st.
Proof.
  induction items as [|a items IH]; intros st.
  - exists (activePaneItem st). by rewrite set_activePaneItem_id.
  - cbn [map]. rewrite run_cons. destruct (IH (step (Focus a) st)) as [e He].
    exists e. by rewrite He.
Qed.

(** X2: [ensure] reads the path of the active file when it is called: whatever
    pane items are focused before the state query is answered, the answer
    is handled as if the focus had not moved (the warning is for the file of
    the call, not for the file now in front). *)
Theorem answer_ignores_focus (st : State) (items : list (option PaneItem))
    (v : Value) :
  let asked := step (Invoke Ensure) st in
  let i := length (promises st) in
  let st1 := step (Resolve i v) (run (map Focus items) asked) in
  let st2 := step (Resolve i v) asked in
  notifications st1 = notifications st2
  /\ tracked st1 = tracked st2
  /\ requests st1 = requests st2.
Proof.
  intros asked i st1 st2. subst st1 st2.
  destruct (run_focus items asked) as [e ->].
  assert (H : pending asked i (handleState (current_path st)))
    by apply invoke_pending.
  assert (H' : pending (set_activePaneItem e asked) i
                 (handleState (current_path st))) by exact H.
  rewrite (resolve_pending _ _ _ _ H), (resolve_pending _ _ _ _ H').
  unfold exec; cbn [promise_of onFulfilled Ready.on_fulfilled].
  destruct v as [|[]]; try (destruct (current_path st)); notify; cbn; auto.
Qed.

(** X10: After the success of [launch], nothing is tracked until the timer
    fires; then "launch succeeded" is tracked and [ensure] queries the state
    for the file that is active at that time, not at the time of the
    launch. *)
Theorem launch_requeries_current_file (st : State) (i : nat) (v : Value)
    (item : option PaneItem) :
  pending st i runKite ->
  timers st = [] ->
  let st' := run [Resolve i v; Focus item; Advance Ready.settling_delay] st in
  tracked (step (Resolve i v) st) = tracked st
  /\ tracked st' = tracked st ++ [launch_succeeded]
  /\ new_requests st st'
     = [handleState (current_path (set_activePaneItem item st))].
Proof.
  intros H Ht st'. subst st'. cbn [run fold_left].
  rewrite (resolve_pending _ _ _ _ H).
  unfold exec; cbn [promise_of onFulfilled Ready.on_fulfilled]. eval_m.
  split; [reflexivity|].
  unfold step, exec, advance. cbn. rewrite Ht. cbn. unfold is_due. cbn.
  rewrite N.leb_refl. cbn. eval_m. rewrite ensure_eq. cbn.
  split; [reflexivity|].
  apply new_requests_snoc. unfold requests. cbn. rewrite map_app.
  erewrite requests_settle; [ | exact H | reflexivity ].
  cbn. do 3 f_equal. by apply current_path_frame.
Qed.

Lemma launch_requeries_current_file_witness :
  pending launching 0 runKite
  /\ timers launching = []
  /\ new_requests launching
       (run [Resolve 0 VUndefined; Focus (editing a_file);
             Advance Ready.settling_delay] launching)
     = [handleState (Some a_file)].
Proof.
  split; [reflexivity|]. split; [reflexivity|].
  apply (launch_requeries_current_file launching 0 VUndefined (editing a_file));
    reflexivity.
Defined.

(** *** Repeated checks *)

Lemma ensure_round_effect (s : LifecycleState) (st : State) :
  activePaneItem (ensure_round (VState s) st) = activePaneItem st
  /\ length (notifications (ensure_round (VState s) st))
     = length (notifications st)
       + (if presents s (current_path st) then 1 else 0).
Proof.
  unfold ensure_round.
  rewrite (resolve_pending _ _ _ _ (invoke_pending Ensure st)).
  unfold exec; cbn [promise_of onFulfilled Ready.on_fulfilled request_of].
  unfold step, exec. cbn [Ready.invoke]. rewrite ensure_eq. cbn [snd].
  destruct s; try (destruct (current_path st)); notify; cbn;
    rewrite ?length_app; cbn; split; auto; lia.
Qed.

(** X3: Checks are not deduplicated: when [ensure] is called [n] times and
    every query is answered with the same state, [n] notifications are
    presented if the state is one with a notification, and none
    otherwise. *)
Theorem repeated_checks_stack (s : LifecycleState) (n : nat) (st : State) :
  length (notifications (Nat.iter n (ensure_round (VState s)) st))
  = length (notifications st)
    + (if presents s (current_path st) then n else 0).
Proof.
  assert (H : activePaneItem (Nat.iter n (ensure_round (VState s)) st)
              = activePaneItem st
              /\ length (notifications (Nat.iter n (ensure_round (VState s)) st))
                 = length (notifications st)
                   + (if presents s (current_path st) then n else 0)).
  { induction n as [|n [IHa IHn]].
    - change (Nat.iter 0 (ensure_round (VState s)) st) with st.
      split; [reflexivity|]. destruct (presents _ _); lia.
    - rewrite Nat.iter_succ.
      destruct (ensure_round_effect s (Nat.iter n (ensure_round (VState s)) st))
        as [Ha Hn].
      rewrite Ha, Hn, IHn, (current_path_frame _ _ IHa).
      split; [exact IHa|]. destruct (presents _ _); lia. }
  exact (proj2 H).
Qed.

(** *** The whole recovery *)

Lemma current_path_editing (st : State) (p : string) :
  activePaneItem st = editing p -> current_path st = Some p.
Proof.
  unfold current_path, Ready.currentPath, atom.getActivePaneItem, get,
    mbind, M_bind. cbn. by intros ->.
Qed.

(** Symbolic execution of one event on a state in record form. *)
Ltac simplify_state E :=
  repeat progress
    (unfold answer, press, step, exec, resolve, click, advance, is_due,
       Ready.invoke, Ready.ensure, Ready.currentPath, Ready.install,
       Ready.launch, Ready.authenticate, Ready.whitelist,
       Ready.on_fulfilled, Ready.warnNotInstalled,
       Ready.warnNotAuthenticated, Ready.warnNotWhitelisted,
       atom.getActivePaneItem, atom.addError, atom.addWarning, atom.add,
       atom.onDidDismiss, atom.dismiss, atom.setTimeout,
       StateController.call_then, metrics.track, metrics.track_with,
       modify, get, mbind, M_bind, mret, M_ret,
       set_tracked, set_notifications, set_promises, set_timers, set_now,
       set_activePaneItem, editing, atom.add_callback, atom.mark_dismissed,
       mark_settled in E;
     cbn in E;
     rewrite ?pred_length_snoc, ?lookup_snoc_length, ?insert_snoc_length,
       ?N.leb_refl in E).

Ltac stage t :=
  let s := fresh "s" in
  let E := fresh "E" in
  remember t as s eqn:E; simplify_state E; subst s.

Ltac next_stage :=
  match goal with
  | |- context [answer ?v ?S] =>
      lazymatch S with
      | context [answer] => fail
      | context [press] => fail
      | context [step] => fail
      | _ => stage (answer v S)
      end
  | |- context [press ?S] =>
      lazymatch S with
      | context [answer] => fail
      | context [press] => fail
      | context [step] => fail
      | _ => stage (press S)
      end
  | |- context [step ?e ?S] =>
      lazymatch S with
      | context [answer] => fail
      | context [press] => fail
      | context [step] => fail
      | _ => stage (step e S)
      end
  end.

Ltac flatten_new :=
  rewrite <- ?app_assoc; cbn [app]; rewrite drop_app_length.

(** X17: From "not installed" to "ready" in one pass: when every remediation is
    offered, clicked once and succeeds, the controller makes eight requests,
    a state query before and after each remediation except between install
    and launch; it tracks sixteen events, the last one "kite is ready"; of
    the three warnings it presented, the first is dismissed and the other
    two stay on screen; no promise and no timer is left pending. *)
Theorem full_recovery_converges (p : string) (st : State) :
  timers st = [] ->
  let st' := full_recovery p st in
  new_requests st st'
  = [ handleState (Some p); installKiteRelease; runKite;
      handleState (Some p); authenticateUser Ready.email Ready.password;
      handleState (Some p); whitelistPath (path.dirname p);
      handleState (Some p) ]
  /\ map event (drop (length (tracked st)) (tracked st'))
     = [ "not-installed warning shown";
         "install button clicked (via not-installed warning)";
         "not-installed warning dismissed";
         "download-and-install started";
         "download-and-install succeeded";
         "launch started";
         "launch succeeded";
         "not-authenticated warning shown";
         "login button clicked (via not-authenticated warning)";
         "authentication started";
         "authentication succeeded";
         "not-whitelisted warning shown";
         "enable button clicked (via not-whitelisted warning)";
         "whitelisting started";
         "whitelisting succeeded";
         "kite is ready" ]
  /\ map dismissed (drop (length (notifications st)) (notifications st'))
     = [true; false; false]
  /\ map settled (drop (length (promises st)) (promises st'))
     = [true; true; true; true; true; true; true; true]
  /\ timers st' = [].
Proof.
  intros Ht st'. subst st'. unfold full_recovery. cbv zeta.
  destruct st as [ap nw tr ns ps tm uh]. cbn in Ht. subst tm.
  repeat next_stage.
  unfold new_requests, requests. cbn [promises tracked notifications timers].
  repeat split.
  - rewrite !map_app. cbn [map request]. by flatten_new.
  - by flatten_new.
  - by flatten_new.
  - by flatten_new.
Qed.

Lemma full_recovery_converges_witness :
  timers init = []
  /\ new_requests init (full_recovery a_file init)
     = [ handleState (Some a_file); installKiteRelease; runKite;
         handleState (Some a_file);
         authenticateUser "test@kite.com" "123123";
         handleState (Some a_file); whitelistPath "/Users/me/proj";
         handleState (Some a_file) ].
Proof.
  split; [reflexivity|].
  apply (full_recovery_converges a_file init). reflexivity.
Defined.

(** *** What needs the user *)

Lemma resolve_automatic (st : State) (i : nat) (v : Value) :
  wf st ->
  exists l, requests (step (Resolve i v) st) = requests st ++ l
            /\ Forall automatic l.
Proof.
  intros (Hp & _). unfold step, exec, resolve.
  destruct (promises st !! i) as [q|] eqn:Hi;
    [|exists []; by rewrite app_nil_r].
  destruct (settled q) eqn:Hs; [exists []; by rewrite app_nil_r|].
  assert (Hreq : map request (<[i := mark_settled q]> (promises st))
                 = requests st) by (by apply (requests_settle st i q)).
  destruct (proj1 (Forall_lookup _ _) Hp i q Hi) as [[Hq|Hq] _];
    [|rewrite Hq in Hs; discriminate Hs].
  clear Hi. destruct q as [r f g sd]. cbn [request settled] in *.
  destruct r as [curpath| | |e pw|d]; cbn [promise_of] in Hq;
    injection Hq as -> -> _;
    cbn [onFulfilled mark_settled request onRejected Ready.on_fulfilled] in *.
  - exists []. rewrite app_nil_r. split; [|constructor].
    destruct v as [|[]]; try (destruct curpath); notify; cbn; exact Hreq.
  - exists [runKite]. eval_m. unfold requests. rewrite map_app, Hreq.
    split; [reflexivity | by repeat constructor].
  - exists []. rewrite app_nil_r. split; [|constructor]. cbn. exact Hreq.
  - eexists [handleState _]. eval_m. rewrite ensure_eq. cbn.
    unfold requests. rewrite map_app, Hreq.
    split; [reflexivity | by repeat constructor].
  - eexists [handleState _]. eval_m. rewrite ensure_eq. cbn.
    unfold requests. rewrite map_app, Hreq.
    split; [reflexivity | by repeat constructor].
Qed.

Lemma Forall_replicate_const {A} (P : A -> Prop) (k : nat) (x : A) :
  P x -> Forall P (replicate k x).
Proof. intros Hx. induction k; cbn; by constructor. Qed.

(** X9: In every reachable state, an event that is not an action of the user or
    of the host (a settlement, the passing of time, a dismissal, a change of
    focus) only makes state queries and, after an installation, [runKite]:
    installing, authenticating and whitelisting never start by
    themselves. *)
Theorem remediation_needs_user (evs : list Event) (e : Event) :
  user_action e = false ->
  let st := run evs init in
  exists l, requests (step e st) = requests st ++ l /\ Forall automatic l.
Proof.
  intros He st. pose proof (reachable_wf evs) as Hwf. fold st in Hwf.
  destruct e as [op|i v|i err|h b|h|dt|item]; try discriminate He.
  - by apply resolve_automatic.
  - exists []. rewrite app_nil_r. split; [|constructor].
    apply failure_requests_aux.
  - exists []. rewrite app_nil_r. split; [|constructor].
    unfold step, exec, atom.dismiss.
    destruct (notifications st !! h) as [n|]; [|reflexivity].
    by destruct (dismissable (options n) && negb (dismissed n)).
  - destruct (time_requests_aux evs dt) as [Hr _]. fold st in Hr.
    eexists. split; [exact Hr|]. by apply Forall_replicate_const.
  - exists []. rewrite app_nil_r. split; [reflexivity | constructor].
Qed.

Lemma remediation_needs_user_witness :
  user_action (Resolve 0 VUndefined) = false
  /\ exists l,
       requests (step (Resolve 0 VUndefined) (run [Invoke Install] init))
       = requests (run [Invoke Install] init) ++ l
       /\ Forall automatic l.
Proof.
  split; [reflexivity|].
  apply (remediation_needs_user [Invoke Install] (Resolve 0 VUndefined)).
  reflexivity.
Defined.

(** *** Failures are surfaced *)

(** X7: When a remediation fails, exactly one event is tracked (with the error,
    or for [whitelist] with the directory instead) and exactly one error
    notification is presented: on screen, described by the serialized error,
    with the one button "Retry". *)
Theorem failure_is_surfaced (op : Op) (st st0 : State) (i : nat)
    (err : jsvalue) :
  is_remediation op = true ->
  pending st i (request_of op st0) ->
  let st' := step (Reject i err) st in
  (exists e, tracked st' = tracked st ++ [e]
     /\ attrs e = Some (match op with
                        | Whitelist d => dir_attrs d
                        | _ => err
                        end))
  /\ (exists n, shows st st' n
        /\ severity n = Error
        /\ description (options n) = JSON.stringify err
        /\ dismissed n = false
        /\ map text (buttons (options n)) = ["Retry"]).
Proof.
  intros Hop H st'. subst st'.
  destruct (reject_pending _ _ _ err H) as (g & Hg & ->).
  destruct op; try discriminate Hop; injection Hg as <-;
    unfold exec; cbn [Ready.on_rejected]; notify; unfold shows; cbn;
    (split; [eexists; split; reflexivity
            | eexists; repeat split; reflexivity]).
Qed.

Lemma failure_is_surfaced_witness :
  is_remediation (Whitelist "/Users/me/proj") = true
  /\ pending (step (Invoke (Whitelist "/Users/me/proj")) init) 0
       (request_of (Whitelist "/Users/me/proj") init)
  /\ exists e,
       tracked (step (Reject 0 E1) (step (Invoke (Whitelist "/Users/me/proj")) init))
       = tracked (step (Invoke (Whitelist "/Users/me/proj")) init) ++ [e]
       /\ attrs e = Some (dir_attrs "/Users/me/proj").
Proof.
  split; [reflexivity|]. split; [reflexivity|].
  apply (failure_is_surfaced (Whitelist "/Users/me/proj")
           (step (Invoke (Whitelist "/Users/me/proj")) init) init 0 E1);
    reflexivity.
Defined.

(** *** The path that [ensure] reads *)

(** X1: [currentPath] returns the path [p] exactly when the active pane item is
    an editor whose buffer has a file with path [p]; without an active item,
    without a buffer or without a file it returns null, and [ensure] then
    queries the state for no file. It changes nothing. *)
Theorem currentPath_reads_active_file (st : State) :
  (forall p, current_path st = Some p <-> activePaneItem st = editing p)
  /\ (current_path st = None <->
        match activePaneItem st with
        | None => True
        | Some editor =>
            match buffer editor with
            | None => True
            | Some b => file b = None
            end
        end)
  /\ new_requests st (step (Invoke Ensure) st) = [handleState (current_path st)]
  /\ (Ready.currentPath st).2 = st.
Proof.
  assert (Hq : new_requests st (step (Invoke Ensure) st)
               = [handleState (current_path st)]).
  { apply new_requests_snoc. unfold requests, step.
    rewrite invoke_promises, map_app. reflexivity. }
  revert Hq. generalize (new_requests st (step (Invoke Ensure) st)).
  unfold current_path, Ready.currentPath, atom.getActivePaneItem, get,
    mbind, M_bind, editing. cbn.
  destruct (activePaneItem st) as [[[[[[q]|]]|]]|]; cbn;
    intros l Hq; repeat split; intros; try congruence; try discriminate; auto.
Qed.
